(** * Verification of the trip-record ingestion pipeline

    Shallow embedding of [scripts/data_ingestion.py]: the cleaner
    ([clean_chunk]), the schema mapping and batch loader
    ([chunk_and_insert]), the verifier ([verify_counts_and_aggregates])
    and the driver ([main]).

    The pandas frame is a list of column labels with a list of rows; the
    MySQL store is a committed table plus the pending rows of the open
    transaction; exceptions are values of [exn] carried by [result]. The
    pandas parsers and the behaviour of the database driver are not part
    of the script: they are parameters of the development (Section
    variables), so every theorem holds for all of them. *)

From Stdlib Require Import QArith_base Ascii.
From stdpp Require Import base numbers list strings gmap sorting.

Open Scope string_scope.
Open Scope list_scope.
Open Scope nat_scope.

(** ** Values held by a frame *)

(** A float64 cell other than NaN. Only its sign matters to the script. *)
Inductive number :=
  | Fin (q : Q)
  | PosInf
  | NegInf.

(** [x >= 0] *)
Definition number_nonneg (x : number) : bool :=
  match x with
  | Fin q => Qle_bool 0 q
  | PosInf => true
  | NegInf => false
  end.

Record Timestamp := mkTimestamp {
  ts_year : nat; ts_month : nat; ts_day : nat;
  ts_hour : nat; ts_minute : nat; ts_second : nat
}.

Inductive value :=
  | VStr (s : string)      (* object cell holding text *)
  | VNum (x : number)      (* int64 / float64 cell *)
  | VNaN                   (* missing numeric or empty cell *)
  | VTime (t : Timestamp)  (* datetime64 cell *)
  | VNaT                   (* missing datetime *)
  | VNone.                 (* Python None *)

(** [pd.isna] on a scalar. *)
Definition isna (v : value) : bool :=
  match v with
  | VNaN | VNaT | VNone => true
  | _ => false
  end.

(** ** Exceptions and results *)

Inductive exn :=
  | KeyError (keys : list string)
  | TypeError
  | ValueError
  | DatabaseError
  | OSError
  | SystemExit (code : Z).

Inductive result (A : Type) :=
  | Ok (a : A)
  | Err (e : exn).
Arguments Ok {A} a.
Arguments Err {A} e.

#[global] Instance result_ret : MRet result := λ A a, Ok a.
#[global] Instance result_bind : MBind result := λ A B f m,
  match m with
  | Ok a => f a
  | Err e => Err e
  end.

(** ** Frames *)

Record DataFrame := mkFrame {
  columns : list string;
  rows : list (list value)
}.

(** Position of the first column labelled [c]. [read_csv] hands out unique
    labels, so this is the position of the column. *)
Fixpoint index_of (c : string) (cols : list string) : option nat :=
  match cols with
  | [] => None
  | c' :: cols' => if String.eqb c c' then Some 0 else S <$> index_of c cols'
  end.

(** The cell of a row at a position; a row too short reads as missing. *)
Definition cell (r : list value) (i : nat) : value := default VNaN (r !! i).

(** The cells of the column at position [i], top to bottom. *)
Definition series (i : nat) (df : DataFrame) : list value :=
  (λ r, cell r i) <$> rows df.

(** [df[c]]: raises [KeyError] when no column is labelled [c]. *)
Definition getitem (df : DataFrame) (c : string) : result (list value) :=
  match index_of c (columns df) with
  | Some i => Ok (series i df)
  | None => Err (KeyError [c])
  end.

(** [df[c] = conv(df[c])] for a conversion that works cell by cell; the
    converter sees the whole column as well as the cell. *)
Definition assign_converted (conv : list value → value → value)
    (i : nat) (df : DataFrame) : DataFrame :=
  mkFrame (columns df) (alter (conv (series i df)) i <$> rows df).

(** [if c in df.columns: df[c] = conv(df[c])]: the guard is the lookup of
    the position. *)
Definition convert_column (conv : list value → value → value)
    (df : DataFrame) (c : string) : DataFrame :=
  match index_of c (columns df) with
  | Some i => assign_converted conv i df
  | None => df
  end.

(** [df.dropna(subset=subset, how='any')]: [KeyError] listing the labels of
    [subset] that the frame lacks, otherwise the rows with no missing cell
    in the columns of [subset]. *)
Definition dropna (subset : list string) (df : DataFrame) : result DataFrame :=
  let missing := filter (λ c, c ∉ columns df) subset in
  match missing with
  | [] =>
      let idx := omap (λ c, index_of c (columns df)) subset in
      Ok (mkFrame (columns df)
            (filter (λ r, forallb (λ i, negb (isna (cell r i))) idx = true) (rows df)))
  | _ :: _ => Err (KeyError missing)
  end.

(** [s.fillna(0)] *)
Definition fillna0 (s : list value) : list value :=
  (λ v, if isna v then VNum (Fin 0) else v) <$> s.

(** [s >= 0] on a series: NaN compares false; comparing text, [None] or a
    timestamp with an integer raises [TypeError]. *)
Definition ge0 (v : value) : result bool :=
  match v with
  | VNum x => Ok (number_nonneg x)
  | VNaN => Ok false
  | VStr _ | VTime _ | VNaT | VNone => Err TypeError
  end.

Fixpoint series_ge0 (s : list value) : result (list bool) :=
  match s with
  | [] => Ok []
  | v :: s' => b ← ge0 v; bs ← series_ge0 s'; Ok (b :: bs)
  end.

(** [m1 & m2] on boolean series of one length. *)
Definition mask_and (m1 m2 : list bool) : list bool := zip_with andb m1 m2.

(** [df[mask]] *)
Fixpoint select_rows (rs : list (list value)) (mask : list bool) : list (list value) :=
  match rs, mask with
  | r :: rs', b :: mask' =>
      if b then r :: select_rows rs' mask' else select_rows rs' mask'
  | _, _ => []
  end.

Definition boolean_filter (df : DataFrame) (mask : list bool) : DataFrame :=
  mkFrame (columns df) (select_rows (rows df) mask).

Definition datetime_cols : list string := ["pickup_datetime"; "dropoff_datetime"].

Definition num_cols : list string :=
  ["passenger_count"; "trip_distance"; "fare_amount"; "tip_amount"; "total_amount"].

(** ** Schema mapping *)

(** A Python dict of labels, as in [rename(columns={...})]. *)
Definition rename (m : gmap string string) (df : DataFrame) : DataFrame :=
  mkFrame ((λ c, default c (m !! c)) <$> columns df) (rows df).

(** The rename dict built from the labels of the cleaned chunk. *)
Definition col_map (cols : list string) : gmap string string :=
  let m : gmap string string := ∅ in
  let m := if bool_decide ("lpep_pickup_datetime" ∈ cols)
           then <["lpep_pickup_datetime" := "pickup_datetime"]> m else m in
  let m := if bool_decide ("lpep_dropoff_datetime" ∈ cols)
           then <["lpep_dropoff_datetime" := "dropoff_datetime"]> m else m in
  let m := if bool_decide ("PULocationID" ∈ cols)
           then <["PULocationID" := "PULocationID"]> m else m in
  m.

Definition allowed : list string :=
  ["vendorid"; "vendor_id"; "pickup_datetime"; "dropoff_datetime";
   "passenger_count"; "trip_distance"; "rate_code"; "store_and_fwd_flag";
   "PULocationID"; "DOLocationID"; "payment_type"; "fare_amount"; "extra";
   "mta_tax"; "tip_amount"; "tolls_amount"; "total_amount"].

(** The labels of the records: the allow-list once line 94 has renamed
    [vendorid]. *)
Definition canonical_cols : list string :=
  filter (λ c, c ≠ "vendorid") allowed.

(** [[c for c in chunk.columns if c in allowed]] *)
Definition present (cols : list string) : list string :=
  filter (λ c, c ∈ allowed) cols.

(** Positions of all the columns labelled [c], counted from [k]. *)
Fixpoint positions_from (k : nat) (c : string) (cols : list string) : list nat :=
  match cols with
  | [] => []
  | c' :: cols' =>
      (if String.eqb c c' then [k] else []) ++ positions_from (S k) c cols'
  end.

(** [df[labels]]: for each label in turn, every column that carries it. *)
Definition select_columns (labels : list string) (df : DataFrame) : DataFrame :=
  let picked := labels ≫= (λ c, (λ i, (c, i)) <$> positions_from 0 c (columns df)) in
  mkFrame (fst <$> picked)
    ((λ r : list value, (λ p, cell r (snd p)) <$> picked) <$> rows df).

(** The dict of line 94. *)
Definition vendor_names : gmap string string :=
  <["vendorid" := "vendor_id"]>
    (<["vendor" := "vendor_id"]> (<["VendorID" := "vendor_id"]> ∅)).

(** A cell that a float64 or int64 column can hold. *)
Definition is_number (v : value) : bool :=
  match v with
  | VNum _ | VNaN => true
  | _ => false
  end.

(** pandas holds the column at position [i] as float64 or int64: so do
    [read_csv] and [to_numeric] type a column of numbers and empty cells;
    a column with text or timestamps is object or datetime64. *)
Definition numeric_dtype (i : nat) (df : DataFrame) : bool :=
  forallb is_number (series i df).

(** Lines 80 to 94: the renames and the selection of the columns. *)
Definition schema_frame (chunk : DataFrame) : DataFrame :=
  let chunk := rename (col_map (columns chunk)) chunk in
  let df := select_columns (present (columns chunk)) chunk in
  rename vendor_names df.

(** [df.replace({pd.NaT: None})]. A float64 or int64 column cannot hold
    NaT and is left as it is, NaN included; in a datetime64 or object
    column pandas matches the missing key against every missing cell, NaN
    as well as NaT. Dropping rows does not change the dtype of a column,
    so the dtypes are read off [full], the same frame with the rows that
    cleaning dropped. *)
Definition replace_nat_none (full df : DataFrame) : DataFrame :=
  mkFrame (columns df)
    ((λ r : list value,
        imap (λ k v, if numeric_dtype k full then v
                     else if isna v then VNone else v) r) <$> rows df).

(** Lines 80 to 96: from the cleaned chunk to the frame that is written;
    [typed] is the chunk as lines 53 to 60 typed it, before any row was
    dropped. *)
Definition schema_map (typed chunk : DataFrame) : DataFrame :=
  replace_nat_none (schema_frame typed) (schema_frame chunk).

(** [df.to_dict(orient='records')]: one dict per row; of two columns with
    one label the later one wins. *)
Definition to_dict_records (df : DataFrame) : list (gmap string value) :=
  (λ r : list value, list_to_map (reverse (zip (columns df) r))) <$> rows df.

(** [tuple(r.get(k, None) for k in keys)] *)
Definition tuple_of (keys : list string) (r : gmap string value) : list value :=
  (λ k, default VNone (r !! k)) <$> keys.

(** ** The store and the process *)

(** What the script prints; times, memory and rates are left out. *)
Inductive log_line :=
  | LogDownloading
  | LogDownloadComplete
  | LogSkip (i original_len : nat)
  | LogInsertFailed (i : nat) (e : exn)
  | LogChunk (i read cleaned inserted : nat)
  | LogTotal (total_rows : nat)
  | LogConnectionFailed
  | LogVerifyCount (cnt : nat)
  | LogVerifySample (sample : list (value * value)).

(** Calls that reach the store, the file system or the terminal. The
    connection of the loader is named by the index of its chunk. *)
Inductive event :=
  | EvConnect (i : nat)
  | EvExecute (i j : nat) (vals : list (list value))
  | EvCommit (i j : nat) (vals : list (list value))
  | EvRollback (i : nat)
  | EvClose (i : nat)
  | EvVerifyConnect
  | EvVerifyClose
  | EvRemoveTmp
  | EvPrint (l : log_line).

Record world := mkWorld {
  table : list (list value);      (* committed rows of the table *)
  pending : list (list value);    (* uncommitted rows of the loader's connection *)
  open_conns : list nat;          (* loader connections not yet closed *)
  tmpfile : bool;                 (* the staging file exists *)
  trace : list event
}.

(** What [pd.read_csv(path, chunksize=n)] yields when iterated: chunks in
    source order, until the end of the file or a failed read. *)
Inductive csv_reader :=
  | EndOfFile
  | NextChunk (chunk : DataFrame) (rest : csv_reader)
  | ReadError (e : exn).

(** How [stream_download] ends: the file is staged whole; [urlopen]
    fails, before the staging file is created; or the copy fails once the
    staging file is open, and leaves what was written. *)
Inductive download_outcome :=
  | Staged (src : csv_reader)
  | Unreachable
  | Interrupted (e : exn).

(** The answers of the MySQL driver, of the network and of the file
    system. A run makes each call at most once for a given chunk index and
    offset, so a function of those covers any behaviour of the store
    during the run. *)
Record driver := mkDriver {
  connect_ok : nat → bool;
  execute_ok : nat → nat → list (list value) → bool;
  commit_ok : nat → nat → bool;
  rollback_ok : nat → bool;
  verify_connect_ok : bool;
  count_query_ok : bool;
  sample_query : list (list value) → option (list (value * value));
  download : download_outcome;
  remove_ok : bool                (* [os.remove] of the staging file works *)
}.

(** State and exceptions. *)
Definition M (A : Type) : Type := world → world * result A.

#[global] Instance M_ret : MRet M := λ A a w, (w, Ok a).
#[global] Instance M_bind : MBind M := λ A B f m w,
  match m w with
  | (w', Ok a) => f a w'
  | (w', Err e) => (w', Err e)
  end.

Definition raise {A : Type} (e : exn) : M A := λ w, (w, Err e).

Definition lift {A : Type} (r : result A) : M A := λ w, (w, r).

Definition emit (e : event) : M unit := λ w,
  (mkWorld (table w) (pending w) (open_conns w) (tmpfile w) (trace w ++ [e]), Ok ()).

Definition print (l : log_line) : M unit := emit (EvPrint l).

(** [try: body  finally: final], for a [final] that does not raise. *)
Definition try_finally {A : Type} (body : M A) (final : M unit) : M A := λ w,
  let '(w1, r) := body w in
  (fst (final w1), r).

(** [for j in range(0, n, step)]: the offsets, or [ValueError] for a zero
    step; a negative step gives no offset. *)
Definition range_offsets (n : nat) (step : Z) : result (list nat) :=
  if decide (step = 0)%Z then Err ValueError
  else if decide (step < 0)%Z then Ok []
  else
    let s := Z.to_nat step in
    Ok ((λ k, k * s) <$> seq 0 (Nat.div (n + s - 1) s)).

(** ** Sample parsers

    A concrete instance of the two pandas parsers, used to run the model
    on examples: ISO timestamps ([YYYY-MM-DD], [T] or a blank, [HH:MM] and
    optional [:SS]) and integer literals. *)

Definition digit_of (a : ascii) : option nat :=
  let n := nat_of_ascii a in
  if ((48 <=? n) && (n <=? 57))%nat then Some (n - 48) else None.

Fixpoint nat_of_digits (acc : nat) (l : list ascii) : option nat :=
  match l with
  | [] => Some acc
  | a :: l' => d ← digit_of a; nat_of_digits (10 * acc + d) l'
  end.

Definition field_of (l : list ascii) : option nat :=
  match l with
  | [] => None
  | _ => nat_of_digits 0 l
  end.

Definition is_sep (seps : string) (l : list ascii) : bool :=
  match l with
  | [a] => bool_decide (a ∈ String.list_ascii_of_string seps)
  | _ => false
  end.

Definition iso_timestamp (s : string) : option Timestamp :=
  let l := String.list_ascii_of_string s in
  let n := length l in
  if negb ((n =? 16) || (n =? 19))%nat then None
  else if negb (is_sep "-" (take 1 (drop 4 l)) && is_sep "-" (take 1 (drop 7 l))
                && is_sep "T " (take 1 (drop 10 l)) && is_sep ":" (take 1 (drop 13 l))
                && ((n =? 16)%nat || is_sep ":" (take 1 (drop 16 l)))) then None
  else
    y ← field_of (take 4 l);
    mo ← field_of (take 2 (drop 5 l));
    d ← field_of (take 2 (drop 8 l));
    h ← field_of (take 2 (drop 11 l));
    mi ← field_of (take 2 (drop 14 l));
    se ← (if (n =? 16)%nat then Some 0 else field_of (take 2 (drop 17 l)));
    if ((1 <=? mo) && (mo <=? 12) && (1 <=? d) && (d <=? 31)
        && (h <? 24) && (mi <? 60) && (se <? 60))%nat
    then Some (mkTimestamp y mo d h mi se) else None.

Definition sample_to_datetime (col : list value) (v : value) : option Timestamp :=
  match v with
  | VStr s => iso_timestamp s
  | VTime t => Some t
  | _ => None
  end.

Definition integer_literal (s : string) : option Z :=
  match String.list_ascii_of_string s with
  | "-"%char :: l => n ← field_of l; Some (- Z.of_nat n)%Z
  | l => n ← field_of l; Some (Z.of_nat n)
  end.

Definition sample_to_numeric (col : list value) (v : value) : option number :=
  match v with
  | VNum x => Some x
  | VStr s => z ← integer_literal s; Some (Fin (inject_Z z))
  | _ => None
  end.

Record args := mkArgs {
  arg_file : option csv_reader;   (* [--file], with what is read there *)
  arg_no_download : bool;
  arg_batch_size : Z
}.

(** Exit status of the interpreter once [main] has returned or raised. *)
Definition exit_status_of (r : result ()) : Z :=
  match r with
  | Ok _ => 0
  | Err (SystemExit code) => code
  | Err _ => 1
  end.

(** ** Properties of cleaned rows and of runs *)

(** The columns that [clean_chunk] indexes without a guard. *)
Definition required_cols : list string :=
  ["pickup_datetime"; "dropoff_datetime"; "fare_amount"; "trip_distance";
   "passenger_count"].

(** The columns whose sign line 64 tests. *)
Definition checked_cols : list string :=
  ["fare_amount"; "trip_distance"; "passenger_count"].

(** The cell of row [r] under label [c]; [None] when the frame has no
    such column. *)
Definition field (df : DataFrame) (r : list value) (c : string) : option value :=
  (λ i, cell r i) <$> index_of c (columns df).

Definition parsed_time (o : option value) : Prop :=
  ∃ t, o = Some (VTime t).

Definition number_or_missing (o : option value) : Prop :=
  o = None ∨ o = Some VNaN ∨ ∃ x, o = Some (VNum x).

Definition nonneg_or_missing (o : option value) : Prop :=
  o = None ∨ o = Some VNaN ∨ ∃ x, o = Some (VNum x) ∧ number_nonneg x = true.

(** The invariant of a cleaned row, for a given list of validated
    numeric columns. *)
Definition cleaned_row_invariant (validated : list string)
    (df : DataFrame) (r : list value) : Prop :=
  parsed_time (field df r "pickup_datetime") ∧
  parsed_time (field df r "dropoff_datetime") ∧
  ∀ c, c ∈ validated → nonneg_or_missing (field df r c).

(** Row tests of [clean_chunk]: no missing cell at the positions [idx];
    cell [i] non-negative once a missing value is read as 0. *)
Definition row_notna (idx : list nat) (r : list value) : bool :=
  forallb (λ i, negb (isna (cell r i))) idx.

Definition row_nonneg (i : nat) (r : list value) : bool :=
  match ge0 (if isna (cell r i) then VNum (Fin 0) else cell r i) with
  | Ok b => b
  | Err _ => false
  end.

(** Every cell of the column at position [i] satisfies [P]. *)
Definition col_in (P : value → Prop) (i : nat) (d : DataFrame) : Prop :=
  ∀ r, r ∈ rows d → P (cell r i).

Definition time_like (v : value) : Prop := v = VNaN ∨ v = VNaT ∨ ∃ t, v = VTime t.

Definition number_like (v : value) : Prop := v = VNaN ∨ ∃ x, v = VNum x.

(** The rows of the transactions that the store committed, in order. *)
Definition committed_batches (tr : list event) : list (list (list value)) :=
  omap (λ e, match e with EvCommit _ _ vals => Some vals | _ => None end) tr.

(** The sub-batch at offset [j] of chunk [i] was sent to the store. *)
Definition attempted (tr : list event) (i j : nat) : Prop :=
  ∃ vals, EvExecute i j vals ∈ tr.

(** The chunk on whose connection a call to the store is made. *)
Definition event_chunk (e : event) : option nat :=
  match e with
  | EvConnect i | EvExecute i _ _ | EvCommit i _ _ | EvRollback i | EvClose i => Some i
  | _ => None
  end.

(** Every sub-batch of chunk [i], which holds [n] records, was sent. *)
Definition all_sub_batches_attempted (tr : list event) (i n : nat) (batch_size : Z) : Prop :=
  ∀ offsets j, range_offsets n batch_size = Ok offsets → j ∈ offsets → attempted tr i j.

(** The connection of chunk [i] is released before chunk [i + 1] opens
    its own. *)
Definition closed_before_next (tr : list event) (i : nat) : Prop :=
  ∀ tr1 tr2, tr = tr1 ++ EvConnect (S i) :: tr2 → EvClose i ∈ tr1.


Definition init_world (tbl : list (list value)) : world :=
  mkWorld tbl [] [] false [].

(** The columns that lines 53 to 60 convert. *)
Definition typed_cols : list string := datetime_cols ++ num_cols.

(** Row [r'] is row [r] with at most the cells of the converted columns
    rewritten: the same number of cells, and the same cell at every
    position that is not the position of a converted column. *)
Definition retyped (cols : list string) (r r' : list value) : Prop :=
  length r' = length r ∧
  ∀ i, (∀ c, c ∈ typed_cols → index_of c cols ≠ Some i) → r' !! i = r !! i.

(** The rows that the reader hands out before it ends or fails. *)
Fixpoint rows_read (src : csv_reader) : nat :=
  match src with
  | NextChunk chunk rest => length (rows chunk) + rows_read rest
  | EndOfFile | ReadError _ => 0
  end.

(** A step of the process that leaves the staging file alone. *)
Definition keeps_tmpfile {A : Type} (m : M A) : Prop :=
  ∀ w, tmpfile (fst (m w)) = tmpfile w.

(** ** Sample inputs *)

Definition int (z : Z) : value := VNum (Fin (inject_Z z)).

(** The three rows of the scenario, with the labels the scenario gives. *)
Definition scenario_rows : list (list value) :=
  [ [int (-5); int 2; VStr "2021-01-01T00:00"; VStr "2021-01-01T00:10"];
    [int 10; int 3; VStr "bad-date"; VStr "2021-01-01T00:10"];
    [int 12; int 1; VStr "2021-01-01T01:00"; VStr "2021-01-01T01:05"] ].

Definition scenario_chunk : DataFrame :=
  mkFrame ["fare_amount"; "trip_distance"; "pickup"; "dropoff"] scenario_rows.

(** The same rows with the timestamps under the labels of the script. *)
Definition scenario_chunk_named : DataFrame :=
  mkFrame ["fare_amount"; "trip_distance"; "pickup_datetime"; "dropoff_datetime"]
    scenario_rows.

(** The same again with a [passenger_count] column, empty. *)
Definition scenario_chunk_full : DataFrame :=
  mkFrame ["fare_amount"; "trip_distance"; "pickup_datetime"; "dropoff_datetime";
           "passenger_count"]
    ((λ r : list value, r ++ [VNaN]) <$> scenario_rows).


Definition trip_cols : list string :=
  ["pickup_datetime"; "dropoff_datetime"; "fare_amount"; "trip_distance";
   "passenger_count"].

(** One valid trip with the given fare. *)
Definition trip (fare : Z) : list value :=
  [VStr "2021-01-01 08:00:00"; VStr "2021-01-01 08:20:00"; int fare; int 1; int 1].

(** The same trip once cleaned: the tuple that is sent to the store. *)
Definition cleaned_trip (fare : Z) : list value :=
  [VTime (mkTimestamp 2021 1 1 8 0 0); VTime (mkTimestamp 2021 1 1 8 20 0);
   int fare; int 1; int 1].

(** A valid trip with a negative tip, before and after cleaning. *)
Definition negative_tip_chunk : DataFrame :=
  mkFrame (trip_cols ++ ["tip_amount"]) [trip 10 ++ [int (-1)]].

Definition negative_tip_cleaned : DataFrame :=
  mkFrame (trip_cols ++ ["tip_amount"]) [cleaned_trip 10 ++ [int (-1)]].

(** The third row of the scenario, cleaned. *)
Definition scenario_cleaned : DataFrame :=
  mkFrame ["fare_amount"; "trip_distance"; "pickup_datetime"; "dropoff_datetime";
           "passenger_count"]
    [[int 12; int 1; VTime (mkTimestamp 2021 1 1 1 0 0);
      VTime (mkTimestamp 2021 1 1 1 5 0); VNaN]].

(** A chunk of the green-taxi files: [lpep_] timestamps and [VendorID]. *)
Definition green_chunk : DataFrame :=
  mkFrame ["VendorID"; "lpep_pickup_datetime"; "lpep_dropoff_datetime";
           "fare_amount"; "trip_distance"; "passenger_count"]
    [[int 2; VStr "2021-01-01 08:00:00"; VStr "2021-01-01 08:20:00";
      int 10; int 1; int 1]].

(** A valid trip of vendor 2 in a chunk that names the vendor column
    [label] and has a column that the table does not have; the same once
    cleaned. *)
Definition vendor_chunk (label : string) : DataFrame :=
  mkFrame (label :: trip_cols ++ ["weather"]) [int 2 :: trip 10 ++ [VStr "rain"]].

Definition vendor_cleaned (label : string) : DataFrame :=
  mkFrame (label :: trip_cols ++ ["weather"])
    [int 2 :: cleaned_trip 10 ++ [VStr "rain"]].

(** Two trips in a chunk with a tip and a flag. The first, whose fare is
    negative, has the only flag of the chunk; the second has no tip and no
    flag. The same chunk typed, and cleaned. *)
Definition sparse_cols : list string :=
  trip_cols ++ ["tip_amount"; "store_and_fwd_flag"].

Definition sparse_chunk : DataFrame :=
  mkFrame sparse_cols [trip (-5) ++ [int 1; VStr "N"]; trip 10 ++ [VNaN; VNaN]].

Definition sparse_typed : DataFrame :=
  mkFrame sparse_cols
    [cleaned_trip (-5) ++ [int 1; VStr "N"]; cleaned_trip 10 ++ [VNaN; VNaN]].

Definition sparse_cleaned : DataFrame :=
  mkFrame sparse_cols [cleaned_trip 10 ++ [VNaN; VNaN]].

(** A chunk of three trips, then a chunk of one. *)
Definition three_trips : DataFrame :=
  mkFrame trip_cols [trip 10; trip 20; trip 30].

Definition three_trips_cleaned : DataFrame :=
  mkFrame trip_cols [cleaned_trip 10; cleaned_trip 20; cleaned_trip 30].

Definition two_chunks : csv_reader :=
  NextChunk three_trips (NextChunk (mkFrame trip_cols [trip 40]) EndOfFile).

(** A chunk whose only trip has a negative fare. *)
Definition bad_fare_chunk : DataFrame := mkFrame trip_cols [trip (-5)].

Definition one_chunk : csv_reader :=
  NextChunk (mkFrame trip_cols [trip 10]) EndOfFile.

(** A store that accepts everything. *)
Definition steady_db : driver :=
  mkDriver (λ _, true) (λ _ _ _, true) (λ _ _, true) (λ _, true)
    true true (λ _, Some []) Unreachable true.

(** A store that refuses the sub-batch at offset 1 of the first chunk and
    nothing else. *)
Definition flaky_db : driver :=
  mkDriver (λ _, true) (λ i j _, negb ((i =? 0) && (j =? 1))) (λ _ _, true)
    (λ _, true) true true (λ _, Some []) Unreachable true.


(** A store that accepts no connection of the loader. *)
Definition down_db : driver :=
  mkDriver (λ _, false) (λ _ _ _, true) (λ _ _, true) (λ _, true)
    true true (λ _, Some []) Unreachable true.

(** A store that the loader can use and the verifier cannot reach. *)
Definition no_verify_db : driver :=
  mkDriver (λ _, true) (λ _ _ _, true) (λ _ _, true) (λ _, true)
    false true (λ _, Some []) Unreachable true.

(** A store that takes the second statement of the first chunk, refuses
    its commit, and then fails to roll back. *)
Definition stuck_db : driver :=
  mkDriver (λ _, true) (λ _ _ _, true) (λ i j, negb ((i =? 0) && (j =? 1)))
    (λ _, false) true true (λ _, Some []) Unreachable true.

(** A run that downloads [one_chunk] and cannot remove the staging file
    afterwards. *)
Definition sticky_db : driver :=
  mkDriver (λ _, true) (λ _ _ _, true) (λ _ _, true) (λ _, true)
    true true (λ _, Some []) (Staged one_chunk) false.

(** Where [two_chunks], written one row at a time to [flaky_db], ends. *)
Definition flaky_trace : list event :=
  [EvConnect 0;
   EvExecute 0 0 [cleaned_trip 10]; EvCommit 0 0 [cleaned_trip 10];
   EvExecute 0 1 [cleaned_trip 20];
   EvPrint (LogInsertFailed 0 DatabaseError); EvRollback 0;
   EvPrint (LogChunk 0 3 3 1);
   EvConnect 1;
   EvExecute 1 0 [cleaned_trip 40]; EvCommit 1 0 [cleaned_trip 40];
   EvClose 1;
   EvPrint (LogChunk 1 1 1 1);
   EvPrint (LogTotal 2)].

Definition flaky_world : world :=
  mkWorld [cleaned_trip 10; cleaned_trip 40] [] [0] false flaky_trace.

(** Where [one_chunk], written to a store that accepts it, ends. *)
Definition one_chunk_world : world :=
  mkWorld [cleaned_trip 10] [] [] false
    [EvConnect 0;
     EvExecute 0 0 [cleaned_trip 10]; EvCommit 0 0 [cleaned_trip 10];
     EvClose 0;
     EvPrint (LogChunk 0 1 1 1);
     EvPrint (LogTotal 1)].

(** Where a chunk that cleaning empties, followed by [one_chunk], ends in
    the loop over the chunks, on a store that accepts everything. *)
Definition skipped_world : world :=
  mkWorld [cleaned_trip 10] [] [] false
    [EvPrint (LogSkip 0 1);
     EvConnect 1;
     EvExecute 1 0 [cleaned_trip 10]; EvCommit 1 0 [cleaned_trip 10];
     EvClose 1;
     EvPrint (LogChunk 1 1 1 1)].

(** A chunk of a green-taxi file that also has the two timestamps under
    the labels of the script; the same once cleaned. *)
Definition lpep_chunk : DataFrame :=
  mkFrame (trip_cols ++ ["lpep_pickup_datetime"])
    [trip 10 ++ [VStr "2021-01-01 08:00:00"]].

Definition lpep_cleaned : DataFrame :=
  mkFrame (trip_cols ++ ["lpep_pickup_datetime"])
    [cleaned_trip 10 ++ [VStr "2021-01-01 08:00:00"]].

(** * The schema deployer

    Shallow embedding of [scripts/deploy_changes.py]. The server is seen
    through the ledger table [schema_versions] (its committed rows and the
    rows of the open transaction) and the list of the calls made; its
    answers are a parameter. A [str] is a Rocq string: text whose
    characters are below 256. The statements of a script are taken not to
    write to [schema_versions], and a row of that table to read back as
    it was written. *)

Module Deploy.

(** [str.isspace] on one character below 256. *)
Definition is_space (a : ascii) : bool :=
  let n := nat_of_ascii a in
  ((9 <=? n) && (n <=? 13)) || ((28 <=? n) && (n <=? 32)) || (n =? 133) || (n =? 160).

Fixpoint lstrip (l : list ascii) : list ascii :=
  match l with
  | a :: l' => if is_space a then lstrip l' else l
  | [] => []
  end.

(** [s.strip()] *)
Definition strip (s : string) : string :=
  String.string_of_list_ascii
    (reverse (lstrip (reverse (lstrip (String.list_ascii_of_string s))))).

(** [s.split(sep)] for a separator of one character. *)
Fixpoint split (sep : ascii) (s : string) : list string :=
  match s with
  | EmptyString => [EmptyString]
  | String a s' =>
      if Ascii.eqb a sep then EmptyString :: split sep s'
      else match split sep s' with
           | piece :: pieces => String a piece :: pieces
           | [] => [String a EmptyString]
           end
  end.

Inductive line :=
  | LineConnectFailed
  | LineSkipped (version : string)
  | LineApplied (version : string)
  | LineFailed
  | LineNoDdl.

(** What the script asks of the server and prints, in order. *)
Inductive call :=
  | CallLedger                             (* lines 31 to 36 *)
  | CallStart                              (* START TRANSACTION *)
  | CallStatement (s : string)
  | CallRecord (version description : string)
  | CallCommit
  | CallRollback
  | CallCloseCursor
  | CallCloseConn
  | Print (l : line).

Record server := mkServer {
  connect_ok : bool;
  ledger_ok : bool;                (* CREATE TABLE IF NOT EXISTS, commit, SELECT *)
  start_ok : bool;
  statement_ok : string → bool;
  record_ok : bool;
  commit_ok : bool;
  rollback_ok : bool
}.

Record state := mkState {
  versions : gset string;          (* committed rows of schema_versions *)
  staged : list string;            (* rows inserted by the open transaction *)
  calls : list call
}.

Definition log (c : call) (st : state) : state :=
  mkState (versions st) (staged st) (calls st ++ [c]).

(** [conn.commit()] that succeeds. *)
Definition committed (st : state) : state :=
  mkState (versions st ∪ list_to_set (staged st)) [] (calls st).

(** [applied_versions(conn)]: the table is created if need be, the open
    transaction committed, the versions read. *)
Definition applied_versions (srv : server) (st : state) : state * result (gset string) :=
  let st := log CallLedger st in
  if ledger_ok srv then (committed st, Ok (versions (committed st)))
  else (st, Err DatabaseError).

(** The [for stmt in ddl_sql.split(';')] loop of lines 47 to 51. *)
Fixpoint run_statements (srv : server) (pieces : list string) (st : state)
    : state * result () :=
  match pieces with
  | [] => (st, Ok ())
  | stmt :: pieces' =>
      let s := strip stmt in
      if String.eqb s "" then run_statements srv pieces' st
      else if statement_ok srv s
           then run_statements srv pieces' (log (CallStatement s) st)
           else (log (CallStatement s) st, Err DatabaseError)
  end.

(** The body of the [try] of lines 46 to 53. *)
Definition transaction (srv : server) (version ddl_sql description : string)
    (st : state) : state * result () :=
  let st := log CallStart st in
  if negb (start_ok srv) then (st, Err DatabaseError)
  else
    match run_statements srv (split ";"%char ddl_sql) st with
    | (st, Err e) => (st, Err e)
    | (st, Ok _) =>
        let st := log (CallRecord version description) st in
        if negb (record_ok srv) then (st, Err DatabaseError)
        else
          let st := mkState (versions st) (staged st ++ [version]) (calls st) in
          let st := log CallCommit st in
          if commit_ok srv then (committed st, Ok ()) else (st, Err DatabaseError)
    end.

(** [try: conn.rollback()  except: pass] *)
Definition rollback (srv : server) (st : state) : state :=
  let st := log CallRollback st in
  if rollback_ok srv then mkState (versions st) [] (calls st) else st.

Definition apply_version (srv : server) (version ddl_sql description : string)
    (st : state) : state * result bool :=
  match applied_versions srv st with
  | (st, Err e) => (st, Err e)
  | (st, Ok applied) =>
      if decide (version ∈ applied) then (log (Print (LineSkipped version)) st, Ok false)
      else
        match transaction srv version ddl_sql description st with
        | (st, Ok _) =>
            (log CallCloseCursor (log (Print (LineApplied version)) st), Ok true)
        | (st, Err _) =>
            (log CallCloseCursor (rollback srv (log (Print LineFailed) st)), Ok false)
        end
  end.

(** The script that [main] holds for the one version it knows. *)
Definition summary_ddl : string := "
        CREATE TABLE IF NOT EXISTS daily_fare_summary (
            summary_date DATE,
            pulocationid INT,
            avg_fare DOUBLE,
            trip_count BIGINT,
            PRIMARY KEY (summary_date, pulocationid)
        );
        CREATE INDEX IF NOT EXISTS idx_daily_summary_pu ON daily_fare_summary (pulocationid);
        ".

(** [main] for [--version version --description description]. The
    connection is a new one: it has no open transaction. The result of
    [apply_version] is dropped. *)
Definition main (srv : server) (version description : string) (st : state)
    : state * result () :=
  if negb (connect_ok srv)
  then (log (Print LineConnectFailed) st, Err (SystemExit 1))
  else
    let st := mkState (versions st) [] (calls st) in
    if String.eqb version "v1_add_summary_table" then
      match apply_version srv version summary_ddl description st with
      | (st, Err e) => (st, Err e)
      | (st, Ok _) => (log CallCloseConn st, Ok ())
      end
    else (log CallCloseConn (log (Print LineNoDdl) st), Ok ()).

(** The statements that [apply_version] has to send for a script. *)
Definition statements (ddl_sql : string) : list string :=
  filter (λ s, s ≠ "") (strip <$> split ";"%char ddl_sql).

(** Out of a list of statements, those that reach a server which stops
    at the first one it refuses: each statement up to and including that
    one, or the whole list when it refuses none. *)
Fixpoint until_refused (ok : string → bool) (l : list string) : list string :=
  match l with
  | [] => []
  | s :: l' => s :: (if ok s then until_refused ok l' else [])
  end.

(** The statements among some calls. *)
Definition sent (cs : list call) : list string :=
  omap (λ c, match c with CallStatement s => Some s | _ => None end) cs.

(** A statement as the loop sends them: not empty, without [;], without
    a blank character at either end. *)
Definition tidy (s : string) : Prop :=
  let l := String.list_ascii_of_string s in
  l ≠ [] ∧ (";"%char ∉ l) ∧
  (∀ a l', l = a :: l' → is_space a = false) ∧
  (∀ a l', l = l' ++ [a] → is_space a = false).

Definition fresh (vs : gset string) : state := mkState vs [] [].

(** A server that takes everything, and one that refuses the statement
    [bad]. *)
Definition willing : server := mkServer true true true (λ _, true) true true true.

Definition refusing (bad : string) : server :=
  mkServer true true true (λ s, negb (String.eqb s bad)) true true true.

Definition three_statements : string := " CREATE A ; ; CREATE B;
 CREATE C ;".

(** The states after [three_statements] went through, and after its
    second statement was refused. *)
Definition applied_once : state :=
  (apply_version willing "v1" three_statements "first" (fresh ∅)).1.

Definition refused_once : state :=
  (apply_version (refusing "CREATE B") "v1" three_statements "first" (fresh ∅)).1.

(** A connection on which a row for [v0] was inserted and not committed. *)
Definition open_transaction : state := mkState ∅ ["v0"] [].

Definition summary_applied : state :=
  (main willing "v1_add_summary_table" "summary" (fresh ∅)).1.

End Deploy.

(** * The backup script

    Shallow embedding of [scripts/backup_script.py]. The backup directory
    is the set of the names of its files; a path stands for its last
    component, as every path the script handles starts with the same
    [outdir]. The clock, [mysqldump], the names that [glob] takes to match
    the pattern and the fate of each [os.remove] are answers of the
    system. *)

Module Backup.

(** [f"{DB_NAME}_backup_{ts}.sql"] *)
Definition fname (db ts : string) : string :=
  String.append db (String.append "_backup_" (String.append ts ".sql")).

(** What [glob] matches for [f"{DB_NAME}_backup_*.sql"] when [DB_NAME]
    holds none of the characters that [glob] reads as a pattern. *)
Definition backup_name (db name : string) : bool :=
  let n := String.list_ascii_of_string name in
  let p := String.list_ascii_of_string (String.append db "_backup_") in
  bool_decide (p `prefix_of` n) &&
  bool_decide (String.list_ascii_of_string ".sql" `suffix_of` drop (length p) n).

Definition placeholder : string :=
  "-- Fallback export not implemented. Install mysqldump for full backups.
".

(** How [subprocess.check_call] ends: the dump is written, the program is
    not there ([FileNotFoundError]), or it exits with a status that is not
    zero. *)
Inductive outcome :=
  | Dumped (size : nat)
  | NotFound
  | ExitStatus (code : Z).

Record system := mkSystem {
  now : string;                    (* strftime('%Y%m%dT%H%M%SZ') *)
  mysqldump : outcome;
  globbed : string → bool;
  remove_ok : string → bool
}.

Inductive line :=
  | LineRunning
  | LineSuccess (path : string) (size : nat)
  | LineFallback
  | LineRemoved (old : string)
  | LineRemoveFailed (old : string).

Record state := mkState {
  files : gset string;
  out : list line
}.

Inductive answer :=
  | Returned (path : string) (size : nat)
  | CalledProcessError (code : Z).

Definition print (l : line) (st : state) : state :=
  mkState (files st) (out st ++ [l]).

(** [l[keep:]] *)
Definition slice_from {A} (keep : Z) (l : list A) : list A :=
  drop (Z.to_nat (if (keep <? 0)%Z then (Z.of_nat (length l) + keep)%Z else keep)) l.

(** [a] comes before [b] in [sorted(..., reverse=True)]. *)
Definition after (a b : string) : Prop := String.leb b a = true.

#[global] Instance after_dec a b : Decision (after a b) :=
  decide (String.leb b a = true).

(** [sorted(glob.glob(...), reverse=True)] *)
Definition listing (sys : system) (dir : gset string) : list string :=
  merge_sort after (filter (λ f, globbed sys f = true) (elements dir)).

(** The loop of lines 45 to 50. *)
Fixpoint cleanup (sys : system) (olds : list string) (st : state) : state :=
  match olds with
  | [] => st
  | old :: olds' =>
      cleanup sys olds'
        (if remove_ok sys old
         then print (LineRemoved old) (mkState (files st ∖ {[old]}) (out st))
         else print (LineRemoveFailed old) st)
  end.

Definition make_backup (sys : system) (db : string) (keep : Z) (st : state)
    : state * answer :=
  let path := fname db (now sys) in
  let st := mkState (files st ∪ {[path]}) (out st ++ [LineRunning]) in
  match mysqldump sys with
  | ExitStatus code => (st, CalledProcessError code)
  | dumped =>
      let size := match dumped with
                  | Dumped size => size
                  | _ => String.length placeholder
                  end in
      let st := match dumped with
                | Dumped size => print (LineSuccess path size) st
                | _ => print LineFallback st
                end in
      (cleanup sys (slice_from keep (listing sys (files st))) st,
       Returned path size)
  end.

(** A system on which everything works, at a given time. *)
Definition working (ts : string) : system :=
  mkSystem ts (Dumped 4096) (backup_name "nyc_taxi") (λ _, true).

Definition new_year : string := "20240104T000000Z".

Definition some_dir : state :=
  mkState {[ "nyc_taxi_backup_20240101T000000Z.sql";
             "nyc_taxi_backup_20240102T000000Z.sql";
             "nyc_taxi_backup_20240103T000000Z.sql";
             "notes.txt" ]} [].

Definition kept_two : state := (make_backup (working new_year) "nyc_taxi" 2 some_dir).1.

Definition dropped_last : state :=
  (make_backup (working new_year) "nyc_taxi" (-1) some_dir).1.

End Backup.

(** Refutes [H : e ∈ l] for a list [l] written out in which no element has
    the shape of [e]. *)
Ltac absent_from_list H :=
  cbn in H;
  repeat (apply elem_of_cons in H as [H|H]; [discriminate H|]);
  by apply elem_of_nil in H.

(** ** The cleaner *)

Section Pipeline.

(** [pd.to_datetime(col, errors='coerce')] and
    [pd.to_numeric(col, errors='coerce')], cell by cell, with the column
    as context (pandas settles the datetime format on the column);
    [None] is the coerced failure. *)
Variable to_datetime : list value → value → option Timestamp.
Variable to_numeric : list value → value → option number.

Definition datetime_cell (s : list value) (v : value) : value :=
  match to_datetime s v with
  | Some t => VTime t
  | None => VNaT
  end.

Definition numeric_cell (s : list value) (v : value) : value :=
  match to_numeric s v with
  | Some x => VNum x
  | None => VNaN
  end.

(** Lines 53 to 60. *)
Definition convert_types (df : DataFrame) : DataFrame :=
  let df := foldl (convert_column datetime_cell) df datetime_cols in
  foldl (convert_column numeric_cell) df num_cols.

Definition clean_chunk (df : DataFrame) : result DataFrame :=
  let df := convert_types df in
  df ← dropna datetime_cols df;
  fare ← getitem df "fare_amount";
  m_fare ← series_ge0 (fillna0 fare);
  trip ← getitem df "trip_distance";
  m_trip ← series_ge0 (fillna0 trip);
  pass ← getitem df "passenger_count";
  m_pass ← series_ge0 (fillna0 pass);
  Ok (boolean_filter df (mask_and (mask_and m_fare m_trip) m_pass)).


(** ** The batch loader *)

Variable db : driver.

(** [conn = engine.raw_connection(); cursor = conn.cursor()]: a new
    connection, with an empty transaction. *)
Definition connect (i : nat) : M unit := λ w,
  if connect_ok db i
  then (mkWorld (table w) [] (open_conns w ++ [i]) (tmpfile w)
          (trace w ++ [EvConnect i]), Ok ())
  else (w, Err DatabaseError).

(** [cursor.executemany(sql, values)]: all the rows join the transaction,
    or the statement fails and none does. *)
Definition executemany (i j : nat) (vals : list (list value)) : M unit := λ w,
  let tr := trace w ++ [EvExecute i j vals] in
  if execute_ok db i j vals
  then (mkWorld (table w) (pending w ++ vals) (open_conns w) (tmpfile w) tr, Ok ())
  else (mkWorld (table w) (pending w) (open_conns w) (tmpfile w) tr, Err DatabaseError).

(** [conn.commit()]: the rows of the transaction reach the table. *)
Definition commit (i j : nat) : M unit := λ w,
  if commit_ok db i j
  then (mkWorld (table w ++ pending w) [] (open_conns w) (tmpfile w)
          (trace w ++ [EvCommit i j (pending w)]), Ok ())
  else (w, Err DatabaseError).

(** [try: conn.rollback()  except: pass] *)
Definition rollback (i : nat) : M unit := λ w,
  (mkWorld (table w) (if rollback_ok db i then [] else pending w)
     (open_conns w) (tmpfile w) (trace w ++ [EvRollback i]), Ok ()).

(** [cursor.close(); conn.close()], taken not to raise. *)
Definition close (i : nat) : M unit := λ w,
  (mkWorld (table w) (pending w) (filter (λ k, k ≠ i) (open_conns w))
     (tmpfile w) (trace w ++ [EvClose i]), Ok ()).

(** The [for j in range(...)] loop of lines 107 to 114. The counter
    [inserted] is a local variable that outlives an exception, so it is
    returned beside the outcome. *)
Fixpoint insert_loop (i : nat) (keys : list string)
    (records : list (gmap string value)) (size : nat) (offsets : list nat)
    (inserted : nat) (w : world) : world * nat * result () :=
  match offsets with
  | [] => (w, inserted, Ok ())
  | j :: offsets' =>
      let batch := take size (drop j records) in
      let values := tuple_of keys <$> batch in
      match (executemany i j values;; commit i j) w with
      | (w', Ok _) =>
          insert_loop i keys records size offsets' (inserted + length batch) w'
      | (w', Err e) => (w', inserted, Err e)
      end
  end.

(** The body of the [try] of lines 106 to 116. *)
Definition insert_batches (i : nat) (keys : list string)
    (records : list (gmap string value)) (batch_size : Z)
    (w : world) : world * nat * result () :=
  match range_offsets (length records) batch_size with
  | Err e => (w, 0, Err e)
  | Ok offsets =>
      match insert_loop i keys records (Z.to_nat batch_size) offsets 0 w with
      | (w', inserted, Ok _) => (fst (close i w'), inserted, Ok ())
      | (w', inserted, Err e) => (w', inserted, Err e)
      end
  end.

(** Lines 80 to 122 for the chunk of index [i], already cleaned, with the
    typed chunk it was cleaned from: returns [inserted]. *)
Definition load_chunk (batch_size : Z) (i : nat) (typed chunk : DataFrame) : M nat :=
  let df := schema_map typed chunk in
  let records := to_dict_records df in
  connect i;;
  (λ w,
     match insert_batches i (columns df) records batch_size w with
     | (w', inserted, Ok _) => (w', Ok inserted)
     | (w', inserted, Err e) =>
         (print (LogInsertFailed i e);; rollback i;; mret inserted) w'
     end) : M nat.

(** The [for i, chunk in enumerate(...)] loop of lines 72 to 127. *)
Fixpoint chunk_loop (batch_size : Z) (i total_rows : nat) (src : csv_reader) : M nat :=
  match src with
  | EndOfFile => mret total_rows
  | ReadError e => raise e
  | NextChunk chunk rest =>
      let original_len := length (rows chunk) in
      let typed := convert_types chunk in
      chunk ← lift (clean_chunk chunk);
      let cleaned_len := length (rows chunk) in
      if (cleaned_len =? 0)%nat then
        print (LogSkip i original_len);;
        chunk_loop batch_size (S i) total_rows rest
      else
        inserted ← load_chunk batch_size i typed chunk;
        print (LogChunk i original_len cleaned_len inserted);;
        chunk_loop batch_size (S i) (total_rows + inserted) rest
  end.

Definition chunk_and_insert (src : csv_reader) (batch_size : Z) : M nat :=
  total_rows ← chunk_loop batch_size 0 0 src;
  print (LogTotal total_rows);;
  mret total_rows.

(** ** The verifier *)

Definition connect_db : M unit := λ w,
  if verify_connect_ok db then emit EvVerifyConnect w
  else (print LogConnectionFailed;; raise (SystemExit 1)) w.

(** [SELECT COUNT( * )] over the committed rows. *)
Definition query_count : M nat := λ w,
  if count_query_ok db then (w, Ok (length (table w))) else (w, Err DatabaseError).

Definition query_sample : M (list (value * value)) := λ w,
  match sample_query db (table w) with
  | Some sample => (w, Ok sample)
  | None => (w, Err DatabaseError)
  end.

Definition verify_counts_and_aggregates : M (nat * list (value * value)) :=
  connect_db;;
  try_finally
    (cnt ← query_count; sample ← query_sample; mret (cnt, sample))
    (emit EvVerifyClose).

(** ** The driver *)

(** [stream_download(args.url, tmpfile)], with the reader over what it
    staged. *)
Definition stream_download : M csv_reader :=
  print LogDownloading;;
  match download db with
  | Staged src =>
      (λ w, (mkWorld (table w) (pending w) (open_conns w) true (trace w), Ok ()));;
      print LogDownloadComplete;;
      mret src
  | Unreachable => raise OSError
  | Interrupted e =>
      (λ w, (mkWorld (table w) (pending w) (open_conns w) true (trace w), Ok ()));;
      raise e
  end.

(** The [finally] of [main]: when this run named a staging file and it
    exists, [os.remove] is called; an exception of [os.remove] is
    swallowed and the file then stays. *)
Definition remove_tmpfile (a : args) : M unit := λ w,
  if match arg_file a with Some _ => false | None => tmpfile w end
  then (mkWorld (table w) (pending w) (open_conns w) (negb (remove_ok db))
          (trace w ++ [EvRemoveTmp]), Ok ())
  else (w, Ok ()).

(** Lines 156 to 163: the reader over the file to load. Without [--file]
    and with [--no-download] the staging path names no file. *)
Definition acquire (a : args) : M csv_reader :=
  match arg_file a with
  | Some src => mret src
  | None =>
      if arg_no_download a then mret (ReadError OSError)
      else stream_download
  end.

(** Line 164. *)
Definition load (a : args) : M nat :=
  csv ← acquire a;
  chunk_and_insert csv (arg_batch_size a).

Definition main (a : args) : M unit :=
  try_finally
    (inserted ← load a;
     r ← verify_counts_and_aggregates;
     print (LogVerifyCount (fst r));;
     print (LogVerifySample (snd r)))
    (remove_tmpfile a).


(** ** Vocabulary for the loader *)

(** [records] and [keys] for a cleaned chunk: lines 97 and 102. *)
Definition chunk_records (typed chunk : DataFrame) : list (gmap string value) :=
  to_dict_records (schema_map typed chunk).

Definition chunk_keys (chunk : DataFrame) : list string :=
  columns (schema_frame chunk).

(** The tuples of the sub-batch at offset [j]: lines 108 to 111. *)
Definition batch_values (keys : list string) (records : list (gmap string value))
    (size j : nat) : list (list value) :=
  tuple_of keys <$> take size (drop j records).

(** The store takes both the statement and the commit of a sub-batch. *)
Definition batch_accepted (i : nat) (keys : list string)
    (records : list (gmap string value)) (size j : nat) : bool :=
  execute_ok db i j (batch_values keys records size j) && commit_ok db i j.

(** What a sub-batch that goes through leaves in the trace. *)
Definition batch_events (i : nat) (keys : list string)
    (records : list (gmap string value)) (size j : nat) : list event :=
  [EvExecute i j (batch_values keys records size j);
   EvCommit i j (batch_values keys records size j)].

(** A commit in the trace answers a statement and a commit that the store
    took. *)
Definition accepted (e : event) : Prop :=
  match e with
  | EvCommit i j vals => execute_ok db i j vals = true ∧ commit_ok db i j = true
  | _ => True
  end.

(** From [w] to [w'] the loader committed [n] rows: the trace grew by
    events whose commits the store took, the table grew by the rows of
    those commits, and [n] is their number. *)
Definition loaded (w w' : world) (n : nat) : Prop :=
  ∃ tr, trace w' = trace w ++ tr ∧
        table w' = table w ++ concat (committed_batches tr) ∧
        n = sum_list_with length (committed_batches tr) ∧
        tmpfile w' = tmpfile w ∧
        Forall accepted tr.

(** In a run without [--file], the staging file exists when [main]
    reaches its [finally]: it was there before the run, or the download
    has created it. *)
Definition staging_file_exists (a : args) (w : world) : bool :=
  tmpfile w ||
  (negb (arg_no_download a) &&
   match download db with Unreachable => false | _ => true end).

(** * Proofs *)

(** ** Column lookup *)

Lemma index_of_lookup c cols i : index_of c cols = Some i → cols !! i = Some c.
Proof.
  revert i. induction cols as [|c' cols IH]; intros i; simpl; [done|].
  destruct (String.eqb_spec c c') as [->|Hne].
  - by intros [= <-].
  - destruct (index_of c cols) as [k|]; simpl; [|done].
    intros [= <-]. simpl. by apply IH.
Qed.

Lemma index_of_None c cols : index_of c cols = None ↔ c ∉ cols.
Proof.
  induction cols as [|c' cols IH]; simpl.
  - split; [intros _; apply not_elem_of_nil | done].
  - rewrite not_elem_of_cons. destruct (String.eqb_spec c c') as [->|Hne].
    + split; [done | by intros [? _]].
    + destruct (index_of c cols); simpl.
      * split; [done|]. intros [_ H]. by apply IH in H.
      * split; [|done]. intros _. split; [done | by apply IH].
Qed.

Lemma index_of_is_Some c cols : c ∈ cols → is_Some (index_of c cols).
Proof.
  intros Hin. destruct (index_of c cols) eqn:E; [by eexists|].
  by apply index_of_None in E.
Qed.

Lemma index_of_elem c cols i : index_of c cols = Some i → c ∈ cols.
Proof. intros H. eapply list_elem_of_lookup_2, index_of_lookup, H. Qed.

Lemma index_of_inj c c' cols i :
  index_of c cols = Some i → index_of c' cols = Some i → c = c'.
Proof.
  intros H1%index_of_lookup H2%index_of_lookup. congruence.
Qed.

Lemma cell_alter_ne (f : value → value) i j r :
  i ≠ j → cell (alter f i r) j = cell r j.
Proof. intros Hne. unfold cell. by rewrite list_lookup_alter_ne. Qed.

Lemma cell_alter_eq (f : value → value) i r :
  cell (alter f i r) i = match r !! i with Some v => f v | None => VNaN end.
Proof. unfold cell. rewrite list_lookup_alter_eq. by destruct (r !! i). Qed.

(** ** Conversions keep the shape and type the columns *)

Lemma convert_column_columns conv df c :
  columns (convert_column conv df c) = columns df.
Proof. unfold convert_column. by destruct (index_of c (columns df)). Qed.

Lemma convert_column_length conv df c :
  length (rows (convert_column conv df c)) = length (rows df).
Proof.
  unfold convert_column. destruct (index_of c (columns df)); simpl; [|done].
  by rewrite length_fmap.
Qed.

Lemma foldl_convert_columns conv cs df :
  columns (foldl (convert_column conv) df cs) = columns df.
Proof.
  revert df. induction cs as [|c cs IH]; intros df; simpl; [done|].
  by rewrite IH, convert_column_columns.
Qed.

Lemma foldl_convert_length conv cs df :
  length (rows (foldl (convert_column conv) df cs)) = length (rows df).
Proof.
  revert df. induction cs as [|c cs IH]; intros df; simpl; [done|].
  by rewrite IH, convert_column_length.
Qed.

Lemma convert_types_columns df : columns (convert_types df) = columns df.
Proof. unfold convert_types. by rewrite !foldl_convert_columns. Qed.

Lemma convert_types_length df : length (rows (convert_types df)) = length (rows df).
Proof. unfold convert_types. by rewrite !foldl_convert_length. Qed.

(** A conversion types the column it rewrites. *)
Lemma convert_column_types (P : value → Prop) conv df c i :
  (∀ s v, P (conv s v)) → P VNaN →
  index_of c (columns df) = Some i →
  col_in P i (convert_column conv df c).
Proof.
  intros Hconv Hnan Hi r. unfold convert_column. rewrite Hi. simpl.
  intros (r0 & -> & _)%list_elem_of_fmap.
  rewrite cell_alter_eq. by destruct (r0 !! i).
Qed.

(** A conversion leaves the other columns as they are. *)
Lemma convert_column_other (P : value → Prop) conv df c i :
  index_of c (columns df) ≠ Some i →
  col_in P i df → col_in P i (convert_column conv df c).
Proof.
  intros Hne Hcol r. unfold convert_column.
  destruct (index_of c (columns df)) as [j|] eqn:Hj; [|by apply Hcol].
  simpl. intros (r0 & -> & Hr0)%list_elem_of_fmap.
  rewrite cell_alter_ne by congruence. by apply Hcol.
Qed.

Lemma convert_column_keeps (P : value → Prop) conv df c i :
  (∀ s v, P (conv s v)) → P VNaN →
  col_in P i df → col_in P i (convert_column conv df c).
Proof.
  intros Hconv Hnan Hcol.
  destruct (decide (index_of c (columns df) = Some i)) as [Hi|Hi].
  - by apply convert_column_types.
  - by apply convert_column_other.
Qed.

Lemma foldl_convert_keeps (P : value → Prop) conv cs df i :
  (∀ s v, P (conv s v)) → P VNaN →
  col_in P i df → col_in P i (foldl (convert_column conv) df cs).
Proof.
  intros Hconv Hnan. revert df.
  induction cs as [|c cs IH]; intros df Hcol; simpl; [done|].
  by apply IH, convert_column_keeps.
Qed.

Lemma foldl_convert_types (P : value → Prop) conv cs df c i :
  (∀ s v, P (conv s v)) → P VNaN →
  c ∈ cs → index_of c (columns df) = Some i →
  col_in P i (foldl (convert_column conv) df cs).
Proof.
  intros Hconv Hnan. revert df.
  induction cs as [|c0 cs IH]; intros df Hin Hi; simpl.
  - by apply elem_of_nil in Hin.
  - apply elem_of_cons in Hin as [->|Hin].
    + by apply foldl_convert_keeps, convert_column_types.
    + apply IH; [done|]. by rewrite convert_column_columns.
Qed.

Lemma foldl_convert_other (P : value → Prop) conv cs df i :
  (∀ c, c ∈ cs → index_of c (columns df) ≠ Some i) →
  col_in P i df → col_in P i (foldl (convert_column conv) df cs).
Proof.
  revert df. induction cs as [|c0 cs IH]; intros df Hne Hcol; simpl; [done|].
  apply IH.
  - intros c Hc. rewrite convert_column_columns. apply Hne. by right.
  - apply convert_column_other; [|done]. apply Hne. by left.
Qed.

Lemma datetime_cell_time_like s v : time_like (datetime_cell s v).
Proof.
  unfold datetime_cell, time_like. destruct (to_datetime s v); eauto.
Qed.

Lemma numeric_cell_number_like s v : number_like (numeric_cell s v).
Proof.
  unfold numeric_cell, number_like. destruct (to_numeric s v); eauto.
Qed.

Lemma datetime_cols_not_num c : c ∈ datetime_cols → c ∉ num_cols.
Proof.
  unfold datetime_cols. intros Hc.
  repeat (apply elem_of_cons in Hc as [->|Hc]);
    [| | by apply elem_of_nil in Hc];
    apply (bool_decide_unpack _); by vm_compute.
Qed.

(** After lines 53 to 60 a timestamp column holds timestamps or NaT. *)
Lemma convert_types_datetime df c i :
  c ∈ datetime_cols → index_of c (columns df) = Some i →
  col_in time_like i (convert_types df).
Proof.
  intros Hc Hi. unfold convert_types. apply foldl_convert_other.
  - intros c' Hc' Hi'. rewrite foldl_convert_columns in Hi'.
    assert (c' = c) as -> by (eapply index_of_inj; eauto).
    by apply datetime_cols_not_num in Hc.
  - eapply foldl_convert_types; eauto using datetime_cell_time_like.
    unfold time_like. eauto.
Qed.

(** After lines 53 to 60 a numeric column holds numbers or NaN. *)
Lemma convert_types_numeric df c i :
  c ∈ num_cols → index_of c (columns df) = Some i →
  col_in number_like i (convert_types df).
Proof.
  intros Hc Hi. unfold convert_types.
  eapply foldl_convert_types; eauto using numeric_cell_number_like.
  - unfold number_like. eauto.
  - by rewrite foldl_convert_columns.
Qed.

(** ** The cleaner, row by row *)

Lemma select_rows_fmap (p : list value → bool) rs :
  select_rows rs (p <$> rs) = filter (λ r, p r = true) rs.
Proof.
  induction rs as [|r rs IH]; [done|].
  rewrite fmap_cons, filter_cons. cbn [select_rows]. rewrite IH.
  destruct (p r) eqn:E.
  - by rewrite decide_True.
  - rewrite decide_False; [done | congruence].
Qed.

Lemma mask_and_fmap (p q : list value → bool) rs :
  mask_and (p <$> rs) (q <$> rs) = (λ r, p r && q r) <$> rs.
Proof. unfold mask_and. induction rs as [|r rs IH]; simpl; by f_equal. Qed.

(** On a numeric column the comparison raises nothing and is the row test. *)
Lemma series_ge0_numeric i d :
  col_in number_like i d →
  series_ge0 (fillna0 (series i d)) = Ok (row_nonneg i <$> rows d).
Proof.
  unfold col_in, series, fillna0.
  induction (rows d) as [|r rs IH]; intros Hcol; [done|].
  rewrite !fmap_cons. cbn [series_ge0].
  rewrite IH by (intros r' Hr'; apply Hcol; by right).
  unfold row_nonneg.
  destruct (Hcol r) as [->|[x ->]]; [by left | |]; done.
Qed.

Lemma clean_chunk_unfold df :
  clean_chunk df =
    match filter (λ c, c ∉ columns df) datetime_cols with
    | [] =>
        let kept :=
          filter (λ r, row_notna (omap (λ c, index_of c (columns df)) datetime_cols) r = true)
            (rows (convert_types df)) in
        match index_of "fare_amount" (columns df),
              index_of "trip_distance" (columns df),
              index_of "passenger_count" (columns df) with
        | Some a, Some b, Some c =>
            Ok (mkFrame (columns df)
                  (filter (λ r, row_nonneg a r && row_nonneg b r && row_nonneg c r = true)
                     kept))
        | None, _, _ => Err (KeyError ["fare_amount"])
        | Some _, None, _ => Err (KeyError ["trip_distance"])
        | Some _, Some _, None => Err (KeyError ["passenger_count"])
        end
    | ks => Err (KeyError ks)
    end.
Proof.
  unfold clean_chunk, dropna. rewrite convert_types_columns.
  destruct (filter (λ c, c ∉ columns df) datetime_cols) as [|k ks]; [|done].
  cbn [mbind result_bind]. unfold getitem. cbn [columns].
  assert (Hnum : ∀ c i, c ∈ num_cols → index_of c (columns df) = Some i →
    col_in number_like i
      (mkFrame (columns df)
         (filter (λ r, forallb (λ i, negb (isna (cell r i)))
                         (omap (λ c, index_of c (columns df)) datetime_cols) = true)
            (rows (convert_types df))))).
  { intros c i Hc Hi r. simpl. intros [_ Hr]%list_elem_of_filter.
    by eapply convert_types_numeric. }
  destruct (index_of "fare_amount" (columns df)) as [a|] eqn:Ha; [|done].
  cbn [mbind result_bind].
  rewrite (series_ge0_numeric a) by (eapply Hnum; [|done]; set_solver).
  cbn [mbind result_bind].
  destruct (index_of "trip_distance" (columns df)) as [b|] eqn:Hb; [|done].
  cbn [mbind result_bind].
  rewrite (series_ge0_numeric b) by (eapply Hnum; [|done]; set_solver).
  cbn [mbind result_bind].
  destruct (index_of "passenger_count" (columns df)) as [c|] eqn:Hc; [|done].
  cbn [mbind result_bind].
  rewrite (series_ge0_numeric c) by (eapply Hnum; [|done]; set_solver).
  cbn [mbind result_bind rows].
  unfold boolean_filter. cbn [columns rows].
  by rewrite !mask_and_fmap, select_rows_fmap.
Qed.

Lemma datetime_cols_present df :
  filter (λ c, c ∉ columns df) datetime_cols = [] →
  ∃ i j, index_of "pickup_datetime" (columns df) = Some i ∧
         index_of "dropoff_datetime" (columns df) = Some j.
Proof.
  intros Hnil.
  assert (Hin : ∀ c, c ∈ datetime_cols → is_Some (index_of c (columns df))).
  { intros c Hc. apply index_of_is_Some.
    destruct (decide (c ∈ columns df)) as [|Hn]; [done|].
    by destruct (filter_nil_not_elem_of _ _ c Hnil Hn). }
  destruct (Hin "pickup_datetime") as [i Hi]; [set_solver|].
  destruct (Hin "dropoff_datetime") as [j Hj]; [set_solver|].
  eauto.
Qed.

(** What a successful cleaning returns. *)
Lemma clean_chunk_Ok df cleaned :
  clean_chunk df = Ok cleaned →
  ∃ i j a b c,
    index_of "pickup_datetime" (columns df) = Some i ∧
    index_of "dropoff_datetime" (columns df) = Some j ∧
    index_of "fare_amount" (columns df) = Some a ∧
    index_of "trip_distance" (columns df) = Some b ∧
    index_of "passenger_count" (columns df) = Some c ∧
    cleaned =
      mkFrame (columns df)
        (filter (λ r, row_nonneg a r && row_nonneg b r && row_nonneg c r = true)
           (filter (λ r, row_notna [i; j] r = true) (rows (convert_types df)))).
Proof.
  rewrite clean_chunk_unfold.
  destruct (filter (λ c, c ∉ columns df) datetime_cols) as [|k ks] eqn:Hmiss; [|done].
  destruct (datetime_cols_present df Hmiss) as (i & j & Hi & Hj).
  unfold datetime_cols. cbn [omap list_omap]. rewrite Hi, Hj.
  destruct (index_of "fare_amount" (columns df)) as [a|]; [|done].
  destruct (index_of "trip_distance" (columns df)) as [b|]; [|done].
  destruct (index_of "passenger_count" (columns df)) as [c|]; [|done].
  intros [= <-]. by exists i, j, a, b, c.
Qed.

(** Cleaning returns as soon as the five indexed columns are there. *)
Lemma clean_chunk_returns df :
  (∀ c, c ∈ required_cols → c ∈ columns df) →
  ∃ cleaned, clean_chunk df = Ok cleaned.
Proof.
  intros Hreq. rewrite clean_chunk_unfold.
  assert (Hidx : ∀ c, c ∈ required_cols → is_Some (index_of c (columns df))).
  { intros c Hc. by apply index_of_is_Some, Hreq. }
  assert (filter (λ c, c ∉ columns df) datetime_cols = []) as ->.
  { unfold datetime_cols. rewrite !filter_cons, filter_nil.
    rewrite !decide_False; [done | |]; intros Hn; apply Hn, Hreq; set_solver. }
  destruct (Hidx "fare_amount") as [a ->]; [set_solver|].
  destruct (Hidx "trip_distance") as [b ->]; [set_solver|].
  destruct (Hidx "passenger_count") as [c ->]; [set_solver|].
  eauto.
Qed.

Lemma chunk_loop_clean_error batch_size i total df rest w e :
  clean_chunk df = Err e →
  chunk_loop batch_size i total (NextChunk df rest) w = (w, Err e).
Proof.
  intros Hclean. cbn [chunk_loop]. unfold mbind, M_bind, lift. by rewrite Hclean.
Qed.

(** ** Claims about the cleaner *)

(** C8: the cleaned chunk never has more rows than the chunk that was
    read: [cleaned_len <= original_len]. *)
Theorem clean_chunk_never_adds_rows df cleaned :
  clean_chunk df = Ok cleaned →
  length (rows cleaned) ≤ length (rows df).
Proof.
  intros (i & j & a & b & c & _ & _ & _ & _ & _ & ->)%clean_chunk_Ok.
  cbn [rows]. rewrite <- (convert_types_length df).
  etrans; [apply length_filter|]. apply length_filter.
Qed.

(** C3, amended: in every cleaned row both timestamps are parsed, each of
    [fare_amount], [trip_distance], [passenger_count] is missing or a
    number [>= 0], and each of the five numeric columns that the frame has
    is missing or a number (the sign of [tip_amount] and [total_amount] is
    not tested). *)
Theorem cleaned_rows_valid df cleaned r :
  clean_chunk df = Ok cleaned →
  r ∈ rows cleaned →
  cleaned_row_invariant checked_cols cleaned r ∧
  ∀ c, c ∈ num_cols → number_or_missing (field cleaned r c).
Proof.
  intros (i & j & a & b & c & Hi & Hj & Ha & Hb & Hc & ->)%clean_chunk_Ok.
  cbn [rows]. intros [Hsign [Hna Hr]%list_elem_of_filter]%list_elem_of_filter.
  unfold row_notna in Hna. cbn [forallb] in Hna.
  apply andb_true_iff in Hsign as [[Hfa Htr]%andb_true_iff Hpa].
  apply andb_true_iff in Hna as [Hpick [Hdrop _]%andb_true_iff].
  assert (Htime : ∀ k, col_in time_like k (convert_types df) →
            negb (isna (cell r k)) = true → ∃ t, cell r k = VTime t).
  { intros k Hcol Hk. destruct (Hcol r Hr) as [E|[E|E]]; [| |done];
      rewrite E in Hk; done. }
  assert (Hnonneg : ∀ k, col_in number_like k (convert_types df) →
            row_nonneg k r = true →
            nonneg_or_missing (Some (cell r k))).
  { intros k Hcol Hk. unfold row_nonneg in Hk.
    destruct (Hcol r Hr) as [E|[x E]]; rewrite E in *.
    - right. by left.
    - right. right. by exists x. }
  unfold cleaned_row_invariant, parsed_time, field. cbn [columns].
  rewrite Hi, Hj. cbn [fmap option_fmap option_map].
  repeat split.
  - destruct (Htime i) as [t ->]; eauto.
    eapply convert_types_datetime; [|done]. set_solver.
  - destruct (Htime j) as [t ->]; eauto.
    eapply convert_types_datetime; [|done]. set_solver.
  - intros col Hcol. unfold checked_cols in Hcol.
    repeat (apply elem_of_cons in Hcol as [->|Hcol]);
      [| | | by apply elem_of_nil in Hcol].
    + rewrite Ha. apply Hnonneg; [|done].
      eapply convert_types_numeric; [|done]. set_solver.
    + rewrite Hb. apply Hnonneg; [|done].
      eapply convert_types_numeric; [|done]. set_solver.
    + rewrite Hc. apply Hnonneg; [|done].
      eapply convert_types_numeric; [|done]. set_solver.
  - intros col Hcol. unfold number_or_missing.
    destruct (index_of col (columns df)) as [k|] eqn:Hk; [|by left].
    right. cbn [fmap option_fmap option_map].
    destruct (convert_types_numeric df col k Hcol Hk r Hr) as [->|[x ->]]; eauto.
Qed.

(** C10: a chunk that lacks one of [pickup_datetime], [dropoff_datetime],
    [fare_amount], [trip_distance], [passenger_count] under that very name
    makes [clean_chunk] raise [KeyError]; the loop calls the cleaner before
    any renaming, so the exception leaves [chunk_and_insert] with nothing
    done for the chunk. *)
Theorem clean_chunk_requires_columns df c :
  c ∈ required_cols → c ∉ columns df →
  ∃ ks, ks ≠ [] ∧ clean_chunk df = Err (KeyError ks) ∧
    ∀ batch_size i total rest w,
      chunk_loop batch_size i total (NextChunk df rest) w = (w, Err (KeyError ks)).
Proof.
  intros Hreq Hmiss.
  assert (Herr : ∃ ks, ks ≠ [] ∧ clean_chunk df = Err (KeyError ks)).
  { rewrite clean_chunk_unfold.
    destruct (filter (λ c, c ∉ columns df) datetime_cols) as [|k ks] eqn:Hf;
      [|by exists (k :: ks)].
    destruct (datetime_cols_present df Hf) as (i & j & Hi & Hj).
    destruct (index_of "fare_amount" (columns df)) as [a|] eqn:Ha;
      [|by exists ["fare_amount"]].
    destruct (index_of "trip_distance" (columns df)) as [b|] eqn:Hb;
      [|by exists ["trip_distance"]].
    destruct (index_of "passenger_count" (columns df)) as [p|] eqn:Hp;
      [|by exists ["passenger_count"]].
    exfalso. apply Hmiss. unfold required_cols in Hreq.
    repeat (apply elem_of_cons in Hreq as [->|Hreq]);
      eauto using index_of_elem.
    by apply elem_of_nil in Hreq. }
  destruct Herr as (ks & Hne & Hks). exists ks. repeat split; [done..|].
  intros. by apply chunk_loop_clean_error.
Qed.

(** ** The loader commits what it counts *)

Lemma length_concat_sum {A : Type} (ls : list (list A)) :
  length (concat ls) = sum_list_with length ls.
Proof.
  induction ls as [|l ls IH]; [reflexivity|].
  change (concat (l :: ls)) with (l ++ concat ls).
  rewrite length_app, IH. reflexivity.
Qed.

Lemma committed_batches_app tr1 tr2 :
  committed_batches (tr1 ++ tr2) = committed_batches tr1 ++ committed_batches tr2.
Proof. unfold committed_batches. apply omap_app. Qed.

Lemma loaded_refl w : loaded w w 0.
Proof. exists []. by rewrite !app_nil_r. Qed.

Lemma loaded_trans w1 w2 w3 n m :
  loaded w1 w2 n → loaded w2 w3 m → loaded w1 w3 (n + m).
Proof.
  intros (tr1 & Ht1 & Hb1 & -> & Hf1 & Ha1) (tr2 & Ht2 & Hb2 & -> & Hf2 & Ha2).
  exists (tr1 ++ tr2).
  rewrite committed_batches_app, concat_app, sum_list_with_app.
  rewrite Ht2, Ht1, Hb2, Hb1, Hf2, Hf1, !app_assoc.
  repeat split; try done. by apply Forall_app.
Qed.

(** An event other than a commit, with the table untouched. *)
Lemma loaded_step w w' e :
  table w' = table w → tmpfile w' = tmpfile w → trace w' = trace w ++ [e] →
  match e with EvCommit _ _ _ => False | _ => True end →
  loaded w w' 0.
Proof.
  intros Htbl Htmp Htr He. exists [e].
  destruct e; try done; cbn; rewrite app_nil_r; repeat split; try done;
    by apply Forall_singleton.
Qed.

Lemma loaded_steps w w' e1 e2 :
  table w' = table w → tmpfile w' = tmpfile w → trace w' = (trace w ++ [e1]) ++ [e2] →
  match e1 with EvCommit _ _ _ => False | _ => True end →
  match e2 with EvCommit _ _ _ => False | _ => True end →
  loaded w w' 0.
Proof.
  intros Htbl Htmp Htr He1 He2.
  change 0 with (0 + 0).
  apply (loaded_trans _
           (mkWorld (table w) (pending w) (open_conns w) (tmpfile w) (trace w ++ [e1])));
    by eapply loaded_step.
Qed.

Lemma insert_loop_loaded i keys records size offsets inserted w w' n r :
  pending w = [] →
  insert_loop i keys records size offsets inserted w = (w', n, r) →
  ∃ m, loaded w w' m ∧ n = inserted + m ∧ open_conns w' = open_conns w.
Proof.
  revert inserted w.
  induction offsets as [|j offsets IH]; intros inserted w Hpend; cbn [insert_loop].
  { intros [= <- <- <-]. exists 0. split; [apply loaded_refl | by rewrite Nat.add_0_r]. }
  unfold mbind, M_bind, executemany, commit. cbn [table pending open_conns tmpfile trace].
  rewrite Hpend. cbn [app].
  set (vals := tuple_of keys <$> take size (drop j records)).
  destruct (execute_ok db i j vals) eqn:Hexec.
  - destruct (commit_ok db i j) eqn:Hcommit.
    + intros Hloop. apply IH in Hloop as (m & Hm & -> & Hconns); [|done].
      exists (length vals + m). split; [|split].
      * eapply loaded_trans; [|exact Hm].
        exists [EvExecute i j vals; EvCommit i j vals].
        cbn. rewrite <- !app_assoc, !app_nil_r, Nat.add_0_r. cbn.
        repeat split; try done. by repeat constructor.
      * unfold vals. rewrite length_fmap. lia.
      * done.
    + intros [= <- <- <-]. exists 0. split; [|by rewrite Nat.add_0_r].
      by eapply loaded_step.
  - intros [= <- <- <-]. exists 0. split; [|by rewrite Nat.add_0_r].
    by eapply loaded_step.
Qed.

Lemma load_chunk_loaded batch_size i typed chunk w w' r :
  load_chunk batch_size i typed chunk w = (w', r) →
  ∃ n, loaded w w' n ∧ ∀ m, r = Ok m → m = n.
Proof.
  unfold load_chunk, mbind, M_bind, connect.
  destruct (connect_ok db i).
  2:{ intros [= <- <-]. exists 0. split; [apply loaded_refl | done]. }
  set (w1 := mkWorld (table w) [] (open_conns w ++ [i]) (tmpfile w)
               (trace w ++ [EvConnect i])).
  assert (H1 : loaded w w1 0) by by eapply loaded_step.
  unfold insert_batches.
  destruct (range_offsets _ batch_size) as [offsets|e].
  - destruct (insert_loop i _ _ _ offsets 0 w1) as [[w2 n] [[]|e]] eqn:Hloop;
      apply insert_loop_loaded in Hloop as (m & Hm & -> & Hc); try done.
    + intros [= <- <-]. exists m. split; [|by intros ? [= <-]].
      change m with (0 + m). eapply loaded_trans; [exact H1|].
      replace m with (m + 0) by lia. eapply loaded_trans; [exact Hm|].
      by eapply loaded_step.
    + unfold print, emit, rollback, mret, M_ret. intros [= <- <-].
      exists m. split; [|by intros ? [= <-]].
      change m with (0 + m). eapply loaded_trans; [exact H1|].
      replace m with (m + 0) by lia. eapply loaded_trans; [exact Hm|].
      by eapply loaded_steps.
  - unfold print, emit, rollback, mret, M_ret. intros [= <- <-].
    exists 0. split; [|by intros ? [= <-]].
    change 0 with (0 + 0). eapply loaded_trans; [exact H1|].
    by eapply loaded_steps.
Qed.

Lemma chunk_loop_loaded batch_size src i total w w' r :
  chunk_loop batch_size i total src w = (w', r) →
  ∃ n, loaded w w' n ∧ ∀ t, r = Ok t → t = total + n.
Proof.
  revert i total w.
  induction src as [|chunk rest IH|e]; intros i total w; cbn [chunk_loop].
  - intros [= <- <-]. exists 0. split; [apply loaded_refl|].
    intros t [= <-]. lia.
  - unfold mbind, M_bind, lift.
    destruct (clean_chunk chunk) as [cleaned|e].
    2:{ intros [= <- <-]. exists 0. split; [apply loaded_refl | done]. }
    destruct (length (rows cleaned) =? 0).
    + unfold print, emit. intros (n & Hn & Ht)%IH.
      exists n. split; [|done].
      change n with (0 + n). eapply loaded_trans; [|exact Hn].
      by eapply loaded_step.
    + destruct (load_chunk batch_size i _ cleaned w) as [w1 [inserted|e]] eqn:Hload;
        apply load_chunk_loaded in Hload as (m & Hm & Hins).
      * rewrite (Hins inserted eq_refl). unfold print, emit.
        intros (n & Hn & Ht)%IH. exists (m + n). split.
        -- eapply loaded_trans; [exact Hm|].
           change n with (0 + n). eapply loaded_trans; [|exact Hn].
           by eapply loaded_step.
        -- intros t Hr. rewrite (Ht t Hr). lia.
      * intros [= <- <-]. by exists m.
  - unfold raise. intros [= <- <-]. exists 0. split; [apply loaded_refl | done].
Qed.

Lemma chunk_and_insert_loaded src batch_size w w' r :
  chunk_and_insert src batch_size w = (w', r) →
  ∃ n, loaded w w' n ∧ ∀ t, r = Ok t → t = n.
Proof.
  unfold chunk_and_insert, mbind, M_bind.
  destruct (chunk_loop batch_size 0 0 src w) as [w1 [total|e]] eqn:Hloop;
    apply chunk_loop_loaded in Hloop as (n & Hn & Ht).
  - unfold print, emit, mret, M_ret. intros [= <- <-].
    exists n. split; [|intros t [= <-]; by apply Ht].
    replace n with (n + 0) by lia. eapply loaded_trans; [exact Hn|].
    by eapply loaded_step.
  - intros [= <- <-]. by exists n.
Qed.

(** ** Claims about the counts *)

(** C2: when [chunk_and_insert] returns, the total it returns is the sum
    of the sizes of the sub-batches whose transaction the store committed,
    and the table has grown by exactly the rows of those sub-batches; a
    sub-batch whose statement or commit the store refused is not among
    them. The statement about the table also holds when the run ends in
    an exception. *)
Theorem total_inserted_is_committed src batch_size tbl w r :
  chunk_and_insert src batch_size (init_world tbl) = (w, r) →
  table w = tbl ++ concat (committed_batches (trace w)) ∧
  Forall accepted (trace w) ∧
  ∀ total, r = Ok total →
    total = sum_list_with length (committed_batches (trace w)) ∧
    length (table w) = length tbl + total.
Proof.
  intros (n & (tr & Htr & Htbl & -> & _ & Hacc) & Ht)%chunk_and_insert_loaded.
  cbn in Htr, Htbl. rewrite Htr. split; [done|]. split; [done|].
  intros total Hr. rewrite (Ht total Hr). split; [done|].
  by rewrite Htbl, length_app, length_concat_sum.
Qed.

(** ** The chunks in the trace *)

Lemma insert_loop_trace i keys records size offsets inserted w w' n r :
  insert_loop i keys records size offsets inserted w = (w', n, r) →
  ∃ tr, trace w' = trace w ++ tr ∧ Forall (λ e, event_chunk e = Some i) tr.
Proof.
  revert inserted w.
  induction offsets as [|j offsets IH]; intros inserted w; cbn [insert_loop].
  { intros [= <- _ _]. exists []. by rewrite app_nil_r. }
  unfold mbind, M_bind, executemany, commit. cbn [table pending open_conns tmpfile trace].
  destruct (execute_ok db i j _).
  - destruct (commit_ok db i j).
    + intros (tr & Htr & Hall)%IH. cbn [trace] in Htr.
      eexists (_ :: _ :: tr). split; [by rewrite Htr, <- !app_assoc|].
      by repeat constructor.
    + intros [= <- _ _]. eexists [_]. split; [done|]. by repeat constructor.
  - intros [= <- _ _]. eexists [_]. split; [done|]. by repeat constructor.
Qed.

(** A chunk only calls the store on its own connection, and opens it
    first. *)
Lemma load_chunk_trace batch_size i typed chunk w w' r :
  load_chunk batch_size i typed chunk w = (w', r) →
  ∃ tr, trace w' = trace w ++ tr ∧
        Forall (λ e, ∀ k, event_chunk e = Some k → k = i) tr ∧
        (connect_ok db i = true → ∃ tr', tr = EvConnect i :: tr').
Proof.
  unfold load_chunk, mbind at 1, M_bind, connect.
  destruct (connect_ok db i).
  2:{ intros [= <- _]. exists []. rewrite app_nil_r. by repeat split. }
  assert (Hmine : ∀ tr, Forall (λ e, event_chunk e = Some i) tr →
            Forall (λ e, ∀ k, event_chunk e = Some k → k = i) tr).
  { intros tr Hall. eapply Forall_impl; [exact Hall|].
    intros e He k Hk. cbn beta in *. congruence. }
  unfold insert_batches.
  destruct (range_offsets _ batch_size) as [offsets|e].
  - destruct (insert_loop i _ _ _ offsets 0 _) as [[w2 n] [[]|e]] eqn:Hloop;
      apply insert_loop_trace in Hloop as (tr & Htr & Hall%Hmine);
      cbn [trace] in Htr.
    + intros [= <- _]. cbn [close fst trace].
      exists (EvConnect i :: tr ++ [EvClose i]).
      split; [by rewrite Htr, <- !app_assoc|]. split; [|by eexists].
      constructor; [by intros k [= <-]|]. apply Forall_app. split; [done|].
      constructor; [by intros k [= <-] | constructor].
    + unfold print, emit, rollback, mbind, M_bind, mret, M_ret.
      intros [= <- _]. cbn [trace].
      exists (EvConnect i :: tr ++ [EvPrint (LogInsertFailed i e); EvRollback i]).
      split; [by rewrite Htr, <- !app_assoc|]. split; [|by eexists].
      constructor; [by intros k [= <-]|]. apply Forall_app. split; [done|].
      constructor; [done|]. constructor; [by intros k [= <-] | constructor].
  - unfold print, emit, rollback, mbind, M_bind, mret, M_ret.
    intros [= <- _]. cbn [trace].
    exists [EvConnect i; EvPrint (LogInsertFailed i e); EvRollback i].
    split; [by rewrite <- !app_assoc|]. split; [|by eexists].
    constructor; [by intros k [= <-]|].
    constructor; [done|]. constructor; [by intros k [= <-] | constructor].
Qed.

(** From index [i] on, the loop calls the store for chunks [i] and later
    only. *)
Lemma chunk_loop_trace batch_size src i total w w' r :
  chunk_loop batch_size i total src w = (w', r) →
  ∃ tr, trace w' = trace w ++ tr ∧
        Forall (λ e, ∀ k, event_chunk e = Some k → i ≤ k) tr.
Proof.
  revert i total w.
  induction src as [|chunk rest IH|e]; intros i total w; cbn [chunk_loop].
  - intros [= <- _]. exists []. by rewrite app_nil_r.
  - unfold mbind at 1, M_bind at 1, lift.
    destruct (clean_chunk chunk) as [cleaned|e].
    2:{ intros [= <- _]. exists []. by rewrite app_nil_r. }
    assert (Hlater : ∀ tr, Forall (λ e, ∀ k, event_chunk e = Some k → S i ≤ k) tr →
              Forall (λ e, ∀ k, event_chunk e = Some k → i ≤ k) tr).
    { intros tr Hall. eapply Forall_impl; [exact Hall|].
      intros e He k Hk%He. lia. }
    destruct (length (rows cleaned) =? 0).
    + unfold mbind, M_bind, print, emit.
      intros (tr & Htr & Hall%Hlater)%IH. cbn [trace] in Htr.
      eexists (_ :: tr). split; [by rewrite Htr, <- app_assoc|].
      by constructor.
    + unfold mbind at 1, M_bind at 1.
      destruct (load_chunk batch_size i _ cleaned w) as [w1 [inserted|e]] eqn:Hload;
        apply load_chunk_trace in Hload as (tr1 & Htr1 & Hall1 & _).
      * unfold mbind, M_bind, print, emit.
        intros (tr & Htr & Hall%Hlater)%IH. cbn [trace] in Htr.
        exists (tr1 ++ EvPrint (LogChunk i (length (rows chunk))
                                  (length (rows cleaned)) inserted) :: tr).
        split; [by rewrite Htr, Htr1, <- !app_assoc|].
        apply Forall_app. split.
        -- eapply Forall_impl; [exact Hall1|]. intros e He k ->%He. lia.
        -- by constructor.
      * intros [= <- _]. exists tr1. split; [done|].
        eapply Forall_impl; [exact Hall1|]. intros e' He k ->%He. lia.
  - intros [= <- _]. exists []. by rewrite app_nil_r.
Qed.

(** ** Claims about the counts, continued *)

(** C6: a chunk that cleaning empties is skipped. Whatever follows it in
    the file, the run prints one line for the chunk and then does what it
    does for the rest of the file from the next index on: it makes no call
    to the store for the chunk, the table and the total grow by the rows
    that the later chunks commit and by nothing else, the end of the file
    right after the chunk gives the running total as it was, and a next
    chunk that has rows left is loaded. *)
Theorem empty_cleaned_chunk_is_skipped batch_size i total chunk cleaned rest w w' r :
  clean_chunk chunk = Ok cleaned →
  rows cleaned = [] →
  chunk_loop batch_size i total (NextChunk chunk rest) w = (w', r) →
  ∃ tr,
    trace w' = trace w ++ EvPrint (LogSkip i (length (rows chunk))) :: tr ∧
    (∀ e, e ∈ tr → event_chunk e ≠ Some i) ∧
    chunk_loop batch_size (S i) total rest
      (mkWorld (table w) (pending w) (open_conns w) (tmpfile w)
         (trace w ++ [EvPrint (LogSkip i (length (rows chunk)))])) = (w', r) ∧
    table w' = table w ++ concat (committed_batches tr) ∧
    (∀ t, r = Ok t → t = total + sum_list_with length (committed_batches tr)) ∧
    (rest = EndOfFile → r = Ok total ∧ tr = []) ∧
    (∀ next rest' cleaned',
       rest = NextChunk next rest' → clean_chunk next = Ok cleaned' →
       rows cleaned' ≠ [] → connect_ok db (S i) = true →
       ∃ tr', tr = EvConnect (S i) :: tr').
Proof.
  intros Hclean Hempty. cbn [chunk_loop].
  unfold mbind at 1, M_bind at 1, lift. rewrite Hclean, Hempty.
  cbn [length Nat.eqb]. unfold mbind, M_bind, print, emit.
  set (ws := mkWorld (table w) (pending w) (open_conns w) (tmpfile w)
               (trace w ++ [EvPrint (LogSkip i (length (rows chunk)))])).
  intros Hrest.
  pose proof Hrest as (n & (tr & Htr & Htbl & -> & _ & _) & Htotal)%chunk_loop_loaded.
  pose proof Hrest as (tr0 & Htr0 & Hlater)%chunk_loop_trace.
  assert (tr0 = tr) as -> by (rewrite Htr in Htr0; by apply app_inv_head in Htr0).
  exists tr.
  split; [rewrite Htr; unfold ws; cbn [trace]; by rewrite <- app_assoc|].
  split; [|split; [done|]].
  { intros e He Hi. rewrite Forall_forall in Hlater.
    specialize (Hlater e He i Hi). lia. }
  split; [by rewrite Htbl|]. split; [done|]. split.
  - intros ->. cbn [chunk_loop] in Hrest. unfold mret, M_ret in Hrest.
    injection Hrest as Hw <-.
    split; [done|]. rewrite <- Hw in Htr. cbn [trace] in Htr.
    symmetry. apply (app_inv_head (trace ws)). by rewrite app_nil_r.
  - intros next rest' cleaned' -> Hnext Hrows Hconn. revert Hrest.
    cbn [chunk_loop]. unfold mbind at 1, M_bind at 1, lift. rewrite Hnext.
    destruct (length (rows cleaned') =? 0) eqn:Hlen.
    { apply Nat.eqb_eq, nil_length_inv in Hlen. done. }
    unfold mbind at 1, M_bind at 1.
    destruct (load_chunk batch_size (S i) _ cleaned' ws) as [w1 [inserted|e]] eqn:Hload;
      apply load_chunk_trace in Hload as (tr1 & Htr1 & _ & [tr1' ->]); try done.
    + unfold mbind, M_bind, print, emit.
      intros (n & (tr2 & Htr2 & _) & _)%chunk_loop_loaded. cbn [trace] in Htr2.
      rewrite Htr1, Htr, <- !app_assoc in Htr2. apply app_inv_head in Htr2.
      rewrite Htr2. by eexists.
    + intros [= <- _]. rewrite Htr in Htr1. apply app_inv_head in Htr1.
      rewrite Htr1. by eexists.
Qed.

(** ** The sub-batch loop, offset by offset *)

Lemma range_offsets_NoDup n step offsets :
  range_offsets n step = Ok offsets → NoDup offsets.
Proof.
  unfold range_offsets. destruct (decide (step = 0)%Z); [done|].
  destruct (decide (step < 0)%Z); intros [= <-]; [constructor|].
  apply NoDup_fmap_2_strong; [|apply NoDup_seq].
  intros x y _ _ Heq. apply Nat.mul_cancel_r in Heq; [done|]. lia.
Qed.

Lemma insert_loop_app i keys records size l1 l2 inserted w :
  insert_loop i keys records size (l1 ++ l2) inserted w =
    match insert_loop i keys records size l1 inserted w with
    | (w', n, Ok _) => insert_loop i keys records size l2 n w'
    | (w', n, Err e) => (w', n, Err e)
    end.
Proof.
  revert inserted w. induction l1 as [|j l1 IH]; intros inserted w; [done|].
  cbn [app insert_loop].
  destruct ((executemany i j _;; commit i j) w) as [w' [[]|e]]; [apply IH | done].
Qed.

Lemma insert_loop_accepted i keys records size offsets inserted w :
  pending w = [] →
  (∀ k, k ∈ offsets → batch_accepted i keys records size k = true) →
  insert_loop i keys records size offsets inserted w =
    (mkWorld (table w ++ concat (batch_values keys records size <$> offsets)) []
       (open_conns w) (tmpfile w)
       (trace w ++ (offsets ≫= batch_events i keys records size)),
     inserted + sum_list_with (λ k, length (batch_values keys records size k)) offsets,
     Ok ()).
Proof.
  revert inserted w.
  induction offsets as [|j offsets IH]; intros inserted w Hpend Hacc.
  { cbn. rewrite !app_nil_r, Nat.add_0_r, <- Hpend. by destruct w. }
  cbn [insert_loop]. unfold mbind at 1, M_bind, executemany, commit.
  cbn [table pending open_conns tmpfile trace]. rewrite Hpend. cbn [app].
  assert (Hj : batch_accepted i keys records size j = true) by (apply Hacc; by left).
  apply andb_true_iff in Hj as [Hexec Hcommit]. unfold batch_values in Hexec.
  rewrite Hexec, Hcommit, IH; [|done|intros k Hk; apply Hacc; by right].
  cbn [table pending open_conns tmpfile trace].
  rewrite fmap_cons, bind_cons. cbn [concat sum_list_with].
  change (tuple_of keys <$> take size (drop j records))
    with (batch_values keys records size j).
  replace (length (take size (drop j records)))
    with (length (batch_values keys records size j))
    by (unfold batch_values; by rewrite length_fmap).
  unfold batch_events at 2. rewrite <- !app_assoc. cbn [app].
  do 2 f_equal. lia.
Qed.

Lemma insert_loop_refused i keys records size j rest inserted w :
  pending w = [] →
  batch_accepted i keys records size j = false →
  insert_loop i keys records size (j :: rest) inserted w =
    (mkWorld (table w)
       (if execute_ok db i j (batch_values keys records size j)
        then batch_values keys records size j else [])
       (open_conns w) (tmpfile w)
       (trace w ++ [EvExecute i j (batch_values keys records size j)]),
     inserted, Err DatabaseError).
Proof.
  intros Hpend Hrej. cbn [insert_loop].
  unfold mbind, M_bind, executemany, commit.
  cbn [table pending open_conns tmpfile trace]. rewrite Hpend. cbn [app].
  unfold batch_accepted, batch_values in *.
  destruct (execute_ok db i j _); [|done].
  cbn in Hrej. by rewrite Hrej.
Qed.

(** The chunk whose sub-batch at offset [j] is the first one refused. *)
Lemma load_chunk_refused batch_size i typed chunk w done j rest :
  connect_ok db i = true →
  range_offsets (length (chunk_records typed chunk)) batch_size = Ok (done ++ j :: rest) →
  (∀ k, k ∈ done →
     batch_accepted i (chunk_keys chunk) (chunk_records typed chunk) (Z.to_nat batch_size) k = true) →
  batch_accepted i (chunk_keys chunk) (chunk_records typed chunk) (Z.to_nat batch_size) j = false →
  load_chunk batch_size i typed chunk w =
    (mkWorld
       (table w ++
          concat (batch_values (chunk_keys chunk) (chunk_records typed chunk)
                    (Z.to_nat batch_size) <$> done))
       (if rollback_ok db i then []
        else if execute_ok db i j
                  (batch_values (chunk_keys chunk) (chunk_records typed chunk)
                     (Z.to_nat batch_size) j)
             then batch_values (chunk_keys chunk) (chunk_records typed chunk)
                    (Z.to_nat batch_size) j
             else [])
       (open_conns w ++ [i]) (tmpfile w)
       (trace w ++
          EvConnect i ::
          (done ≫= batch_events i (chunk_keys chunk) (chunk_records typed chunk)
                     (Z.to_nat batch_size)) ++
          [EvExecute i j
             (batch_values (chunk_keys chunk) (chunk_records typed chunk)
                (Z.to_nat batch_size) j);
           EvPrint (LogInsertFailed i DatabaseError);
           EvRollback i]),
     Ok (sum_list_with
           (λ k, length (batch_values (chunk_keys chunk) (chunk_records typed chunk)
                           (Z.to_nat batch_size) k)) done)).
Proof.
  intros Hconn Hrange Hdone Hj.
  unfold load_chunk, mbind at 1, M_bind, connect. rewrite Hconn.
  unfold insert_batches. change (columns (schema_map typed chunk)) with (chunk_keys chunk);
    fold (chunk_records typed chunk).
  rewrite Hrange, insert_loop_app.
  rewrite insert_loop_accepted by done.
  rewrite insert_loop_refused by done.
  unfold print, emit, rollback, mbind, M_bind, mret, M_ret.
  cbn [table pending open_conns tmpfile trace].
  rewrite <- !app_assoc. reflexivity.
Qed.

(** C1, amended: when the store refuses a sub-batch, the sub-batches
    committed before it stay in the table and in the count, the error is
    printed and the rollback of the open transaction is called; when the
    rollback works nothing is left pending, and when it raises, which the
    script swallows, the rows of a sub-batch whose commit was refused stay
    pending on the connection. No later sub-batch of the same chunk is
    sent, and the loader goes on with the next chunk. *)
Theorem failed_sub_batch_ends_chunk batch_size i total raw typed chunk rest_src w
    done j rest :
  typed = convert_types raw →
  clean_chunk raw = Ok chunk →
  rows chunk ≠ [] →
  connect_ok db i = true →
  range_offsets (length (chunk_records typed chunk)) batch_size = Ok (done ++ j :: rest) →
  (∀ k, k ∈ done →
     batch_accepted i (chunk_keys chunk) (chunk_records typed chunk) (Z.to_nat batch_size) k = true) →
  batch_accepted i (chunk_keys chunk) (chunk_records typed chunk) (Z.to_nat batch_size) j = false →
  ∃ w' tr committed,
    load_chunk batch_size i typed chunk w = (w', Ok committed) ∧
    committed =
      sum_list_with
        (λ k, length (batch_values (chunk_keys chunk) (chunk_records typed chunk)
                        (Z.to_nat batch_size) k)) done ∧
    table w' =
      table w ++
      concat (batch_values (chunk_keys chunk) (chunk_records typed chunk)
                (Z.to_nat batch_size) <$> done) ∧
    pending w' =
      (if rollback_ok db i then []
       else if execute_ok db i j
                 (batch_values (chunk_keys chunk) (chunk_records typed chunk)
                    (Z.to_nat batch_size) j)
            then batch_values (chunk_keys chunk) (chunk_records typed chunk)
                   (Z.to_nat batch_size) j
            else []) ∧
    trace w' = trace w ++ tr ∧
    tr =
      EvConnect i ::
      (done ≫= batch_events i (chunk_keys chunk) (chunk_records typed chunk)
                 (Z.to_nat batch_size)) ++
      [EvExecute i j
         (batch_values (chunk_keys chunk) (chunk_records typed chunk)
            (Z.to_nat batch_size) j);
       EvPrint (LogInsertFailed i DatabaseError);
       EvRollback i] ∧
    (∀ j', j' ∈ rest → ¬ attempted tr i j') ∧
    chunk_loop batch_size i total (NextChunk raw rest_src) w =
      chunk_loop batch_size (S i) (total + committed) rest_src
        (mkWorld (table w') (pending w') (open_conns w') (tmpfile w')
           (trace w' ++
              [EvPrint (LogChunk i (length (rows raw)) (length (rows chunk)) committed)])).
Proof.
  intros -> Hclean Hrows Hconn Hrange Hdone Hj.
  pose proof (load_chunk_refused batch_size i (convert_types raw) chunk w done j rest
                Hconn Hrange Hdone Hj) as Hload.
  eexists _, _, _. split; [exact Hload|].
  split; [done|]. split; [done|]. split; [done|]. split; [done|]. split; [done|]. split.
  - intros j' Hj' [vals Hin].
    apply range_offsets_NoDup, NoDup_app in Hrange as (_ & Hdisj & Hnd).
    apply NoDup_cons in Hnd as [Hjrest _].
    apply elem_of_cons in Hin as [?|Hin]; [done|].
    apply elem_of_app in Hin as [Hin|Hin].
    + apply list_elem_of_bind in Hin as (k & Hin & Hk).
      unfold batch_events in Hin.
      apply elem_of_cons in Hin as [[= -> _]|Hin].
      * apply (Hdisj k Hk). by right.
      * apply elem_of_cons in Hin as [?|Hin]; [done|].
        by apply elem_of_nil in Hin.
    + apply elem_of_cons in Hin as [[= -> _]|Hin]; [done|].
      repeat (apply elem_of_cons in Hin as [?|Hin]; [done|]).
      by apply elem_of_nil in Hin.
  - cbn [chunk_loop]. unfold mbind at 1, M_bind at 1, lift. rewrite Hclean.
    destruct (length (rows chunk) =? 0) eqn:Hlen.
    { apply Nat.eqb_eq, nil_length_inv in Hlen. done. }
    unfold mbind at 1, M_bind at 1. rewrite Hload.
    reflexivity.
Qed.

(** When the store takes every sub-batch the connection is closed. *)
Lemma load_chunk_accepted batch_size i typed chunk w offsets :
  connect_ok db i = true →
  range_offsets (length (chunk_records typed chunk)) batch_size = Ok offsets →
  (∀ k, k ∈ offsets →
     batch_accepted i (chunk_keys chunk) (chunk_records typed chunk) (Z.to_nat batch_size) k = true) →
  ∃ w', load_chunk batch_size i typed chunk w =
          (w', Ok (sum_list_with
                     (λ k, length (batch_values (chunk_keys chunk) (chunk_records typed chunk)
                                     (Z.to_nat batch_size) k)) offsets)) ∧
        open_conns w' = filter (λ k, k ≠ i) (open_conns w ++ [i]) ∧
        i ∉ open_conns w'.
Proof.
  intros Hconn Hrange Hacc.
  unfold load_chunk, mbind at 1, M_bind, connect. rewrite Hconn.
  unfold insert_batches. change (columns (schema_map typed chunk)) with (chunk_keys chunk);
    fold (chunk_records typed chunk).
  rewrite Hrange, insert_loop_accepted by done.
  eexists. split; [reflexivity|]. cbn [open_conns close fst].
  split; [done|]. rewrite list_elem_of_filter. by intros [? _].
Qed.

(** A refused sub-batch leaves the connection of its chunk open. *)
Lemma refused_sub_batch_leaves_connection_open batch_size i typed chunk w done j rest :
  connect_ok db i = true →
  range_offsets (length (chunk_records typed chunk)) batch_size = Ok (done ++ j :: rest) →
  (∀ k, k ∈ done →
     batch_accepted i (chunk_keys chunk) (chunk_records typed chunk) (Z.to_nat batch_size) k = true) →
  batch_accepted i (chunk_keys chunk) (chunk_records typed chunk) (Z.to_nat batch_size) j = false →
  i ∈ open_conns (fst (load_chunk batch_size i typed chunk w)).
Proof.
  intros Hconn Hrange Hdone Hj.
  rewrite (load_chunk_refused _ _ _ _ _ _ _ _ Hconn Hrange Hdone Hj).
  cbn [fst open_conns]. apply elem_of_app. right. by left.
Qed.

(** ** The schema mapping *)

Lemma rename_columns m df :
  columns (rename m df) = (λ c, default c (m !! c)) <$> columns df.
Proof. done. Qed.

Lemma select_columns_labels labels df c :
  c ∈ columns (select_columns labels df) → c ∈ labels.
Proof.
  unfold select_columns. cbn [columns].
  intros ([c' k] & -> & Hin)%list_elem_of_fmap.
  apply list_elem_of_bind in Hin as (c0 & Hin & Hc0).
  by apply list_elem_of_fmap in Hin as (k' & [= -> _] & _).
Qed.

(** The rename dict of lines 81 to 87 only produces these labels. *)
Lemma col_map_range cols c v :
  col_map cols !! c = Some v →
  v ∈ ["pickup_datetime"; "dropoff_datetime"; "PULocationID"].
Proof.
  unfold col_map. intros H.
  repeat case_bool_decide;
    repeat (apply lookup_insert_Some in H as [[_ <-]|[_ H]]; [set_solver|]);
    by rewrite lookup_empty in H.
Qed.

(** A column of the mapped frame comes from an allow-listed column. *)
Lemma schema_map_columns_origin typed df c :
  c ∈ columns (schema_map typed df) →
  ∃ c1, c1 ∈ allowed ∧ c = default c1 (vendor_names !! c1) ∧
        c1 ∈ columns (rename (col_map (columns df)) df).
Proof.
  unfold schema_map, replace_nat_none, schema_frame. cbn [columns].
  intros (c1 & -> & Hc1)%list_elem_of_fmap.
  apply select_columns_labels in Hc1. unfold present in Hc1.
  apply list_elem_of_filter in Hc1 as [Hallowed Hc1]. eauto.
Qed.

(** X5: every column of the mapped frame is allow-listed and canonical:
    unknown columns are dropped and nothing is labelled [vendorid]. *)
Lemma schema_map_columns_canonical typed df c :
  c ∈ columns (schema_map typed df) → c ∈ canonical_cols.
Proof.
  intros (c1 & Hallowed & -> & _)%schema_map_columns_origin.
  unfold allowed in Hallowed.
  repeat (apply elem_of_cons in Hallowed as [->|Hallowed];
          [apply (bool_decide_unpack _); by vm_compute|]).
  by apply elem_of_nil in Hallowed.
Qed.

(** X6: [vendor_id] only comes from a column labelled [vendor_id] or
    [vendorid]: never from [VendorID] or [vendor]. *)
Lemma schema_map_vendor_id_origin typed df :
  "vendor_id" ∈ columns (schema_map typed df) →
  "vendor_id" ∈ columns df ∨ "vendorid" ∈ columns df.
Proof.
  intros (c1 & Hallowed & Hc & Hc1)%schema_map_columns_origin.
  rewrite rename_columns in Hc1.
  apply list_elem_of_fmap in Hc1 as (c0 & -> & Hc0).
  destruct (col_map (columns df) !! c0) as [v|] eqn:Hv; cbn [default] in *.
  - apply col_map_range in Hv.
    repeat (apply elem_of_cons in Hv as [->|Hv]; [by vm_compute in Hc|]).
    by apply elem_of_nil in Hv.
  - unfold allowed in Hallowed.
    apply elem_of_cons in Hallowed as [->|Hallowed]; [by right|].
    apply elem_of_cons in Hallowed as [->|Hallowed]; [by left|].
    repeat (apply elem_of_cons in Hallowed as [->|Hallowed];
            [by vm_compute in Hc|]).
    by apply elem_of_nil in Hallowed.
Qed.

(** ** The verifier and the driver *)


(** * Further properties of the script *)

(** ** The cleaner *)

Lemma retyped_refl cols r : retyped cols r r.
Proof. by split. Qed.

Lemma retyped_trans cols r1 r2 r3 :
  retyped cols r1 r2 → retyped cols r2 r3 → retyped cols r1 r3.
Proof.
  intros [Hl1 H1] [Hl2 H2]. split; [congruence|].
  intros i Hi. by rewrite H2, H1.
Qed.

Lemma convert_column_retyped conv df c :
  c ∈ typed_cols →
  Forall2 (retyped (columns df)) (rows df) (rows (convert_column conv df c)).
Proof.
  intros Hc. unfold convert_column.
  destruct (index_of c (columns df)) as [i|] eqn:Hi.
  - cbn [rows assign_converted]. apply Forall2_fmap_r, Forall_Forall2_diag, Forall_forall.
    intros r _. split; [by rewrite length_alter|].
    intros k Hk. apply list_lookup_alter_ne. intros ->. by apply (Hk c).
  - apply Forall_Forall2_diag, Forall_forall. intros r _. apply retyped_refl.
Qed.

Lemma foldl_convert_retyped conv cs df :
  (∀ c, c ∈ cs → c ∈ typed_cols) →
  Forall2 (retyped (columns df)) (rows df) (rows (foldl (convert_column conv) df cs)).
Proof.
  revert df. induction cs as [|c cs IH]; intros df Hcs; cbn [foldl].
  - apply Forall_Forall2_diag, Forall_forall. intros r _. apply retyped_refl.
  - eapply Forall2_trans; [apply retyped_trans | |].
    + apply convert_column_retyped, Hcs. by left.
    + rewrite <- (convert_column_columns conv df c) at 1.
      apply IH. intros c' Hc'. apply Hcs. by right.
Qed.

Lemma convert_types_retyped df :
  Forall2 (retyped (columns df)) (rows df) (rows (convert_types df)).
Proof.
  unfold convert_types. eapply Forall2_trans; [apply retyped_trans | |].
  - apply foldl_convert_retyped. intros c Hc. apply elem_of_app. by left.
  - rewrite <- (foldl_convert_columns datetime_cell datetime_cols df) at 1.
    apply foldl_convert_retyped. intros c Hc. apply elem_of_app. by right.
Qed.

Lemma Forall2_filter_sublist {A B : Type} (R : A → B → Prop) (P : B → Prop)
    `{∀ y, Decision (P y)} l l' :
  Forall2 R l l' →
  ∃ kept, kept `sublist_of` l ∧ Forall2 R kept (filter P l').
Proof.
  induction 1 as [|x y l l' Hxy _ (kept & Hsub & Hkept)].
  - exists []. split; constructor.
  - rewrite filter_cons. destruct (decide (P y)).
    + exists (x :: kept). split; by constructor.
    + exists kept. split; [by apply sublist_cons | done].
Qed.

(** X1: cleaning keeps the labels of the chunk; the rows it returns are, in
    their original order, some of the rows it was given, each with the same
    number of cells and with every cell outside the seven converted columns
    as it was. *)
Theorem cleaning_keeps_order_and_other_cells df cleaned :
  clean_chunk df = Ok cleaned →
  columns cleaned = columns df ∧
  ∃ kept, kept `sublist_of` rows df ∧
          Forall2 (retyped (columns df)) kept (rows cleaned).
Proof.
  intros (i & j & a & b & c & _ & _ & _ & _ & _ & ->)%clean_chunk_Ok.
  split; [done|]. cbn [rows].
  destruct (Forall2_filter_sublist (retyped (columns df))
              (λ r, row_notna [i; j] r = true) _ _ (convert_types_retyped df))
    as (kept1 & Hsub1 & Hkept1).
  destruct (Forall2_filter_sublist (retyped (columns df))
              (λ r, row_nonneg a r && row_nonneg b r && row_nonneg c r = true)
              _ _ Hkept1)
    as (kept2 & Hsub2 & Hkept2).
  exists kept2. split; [by etrans|done].
Qed.

(** X2: with the five indexed columns in the chunk, cleaning returns a
    frame whatever the cells hold: the comparisons of line 64 never meet
    text or a timestamp, so nothing is raised. *)
Theorem cleaning_returns_on_required_columns df :
  (∀ c, c ∈ required_cols → c ∈ columns df) →
  ∃ cleaned, clean_chunk df = Ok cleaned.
Proof. apply clean_chunk_returns. Qed.

(** X3: cleaning drops no valid row: a converted row whose two timestamps
    are parsed and whose fare, distance and passenger count are each
    missing or [>= 0] is in the result. *)
Theorem valid_rows_are_kept df cleaned r :
  clean_chunk df = Ok cleaned →
  r ∈ rows (convert_types df) →
  cleaned_row_invariant checked_cols (convert_types df) r →
  r ∈ rows cleaned.
Proof.
  intros (i & j & a & b & c & Hi & Hj & Ha & Hb & Hc & ->)%clean_chunk_Ok Hr.
  unfold cleaned_row_invariant, parsed_time, field.
  rewrite convert_types_columns, Hi, Hj. cbn [fmap option_fmap option_map].
  intros ([ti Hti] & [tj Htj] & Hnum).
  injection Hti as Hti. injection Htj as Htj.
  assert (Hsign : ∀ col k, col ∈ checked_cols → index_of col (columns df) = Some k →
            row_nonneg k r = true).
  { intros col k Hcol Hk. specialize (Hnum col Hcol). rewrite Hk in Hnum.
    cbn [option_map] in Hnum. unfold row_nonneg.
    destruct Hnum as [?|[[= ->]|(x & [= ->] & Hx)]]; done. }
  cbn [rows]. apply list_elem_of_filter. split.
  - rewrite (Hsign "fare_amount" a), (Hsign "trip_distance" b),
      (Hsign "passenger_count" c); try done; unfold checked_cols; set_solver.
  - apply list_elem_of_filter. split; [|done].
    unfold row_notna. cbn [forallb]. by rewrite Hti, Htj.
Qed.

Lemma alter_fixed (f : value → value) i (r : list value) :
  (∀ v, r !! i = Some v → f v = v) → alter f i r = r.
Proof.
  intros Hfix. apply list_eq. intros k. destruct (decide (i = k)) as [->|Hne].
  - rewrite list_lookup_alter_eq. destruct (r !! k) as [v|] eqn:E; [|done].
    cbn. f_equal. by apply Hfix.
  - by rewrite list_lookup_alter_ne.
Qed.

Lemma convert_column_fixed conv df c :
  (∀ i r v, index_of c (columns df) = Some i → r ∈ rows df → r !! i = Some v →
     conv (series i df) v = v) →
  convert_column conv df c = df.
Proof.
  intros Hfix. unfold convert_column.
  destruct (index_of c (columns df)) as [i|] eqn:Hi; [|done].
  unfold assign_converted. destruct df as [cols rs]. cbn [columns rows] in *.
  f_equal. apply list_eq. intros k. rewrite list_lookup_fmap.
  destruct (rs !! k) as [r|] eqn:E; [|done]. cbn. f_equal.
  apply alter_fixed. intros v Hv. eapply Hfix; eauto using list_elem_of_lookup_2.
Qed.

Lemma foldl_convert_fixed conv cs df :
  (∀ c i r v, c ∈ cs → index_of c (columns df) = Some i → r ∈ rows df →
     r !! i = Some v → conv (series i df) v = v) →
  foldl (convert_column conv) df cs = df.
Proof.
  induction cs as [|c cs IH]; intros Hfix; cbn [foldl]; [done|].
  rewrite convert_column_fixed.
  - apply IH. intros c' i r v Hc'. apply Hfix. by right.
  - intros i r v. apply Hfix. by left.
Qed.

Lemma filter_fixed {A : Type} (P : A → Prop) `{∀ x, Decision (P x)} (l : list A) :
  (∀ x, x ∈ l → P x) → filter P l = l.
Proof.
  induction l as [|x l IH]; intros Hall; [done|].
  rewrite filter_cons_True by (apply Hall; by left).
  f_equal. apply IH. intros y Hy. apply Hall. by right.
Qed.

(** The cells of a cleaned row under the converted columns. *)
Lemma cleaned_cells df cleaned r :
  clean_chunk df = Ok cleaned → r ∈ rows cleaned →
  (∀ c i v, c ∈ datetime_cols → index_of c (columns df) = Some i →
     r !! i = Some v → ∃ t, v = VTime t) ∧
  (∀ c i v, c ∈ num_cols → index_of c (columns df) = Some i →
     r !! i = Some v → number_like v).
Proof.
  intros (i & j & a & b & c & Hi & Hj & Ha & Hb & Hc & ->)%clean_chunk_Ok.
  cbn [rows]. intros [_ [Hna Hr]%list_elem_of_filter]%list_elem_of_filter.
  split.
  - intros col k v Hcol Hk Hv.
    pose proof (convert_types_datetime df col k Hcol Hk r Hr) as Htime.
    assert (Hnotna : negb (isna (cell r k)) = true).
    { unfold row_notna in Hna. cbn [forallb] in Hna.
      apply andb_true_iff in Hna as [Hp [Hd _]%andb_true_iff].
      unfold datetime_cols in Hcol.
      repeat (apply elem_of_cons in Hcol as [->|Hcol]);
        [| |by apply elem_of_nil in Hcol]; congruence. }
    unfold cell in Htime, Hnotna. rewrite Hv in Htime, Hnotna.
    simpl in Htime, Hnotna.
    destruct Htime as [->|[->|[t ->]]]; [done|done|by exists t].
  - intros col k v Hcol Hk Hv.
    pose proof (convert_types_numeric df col k Hcol Hk r Hr) as Hnum.
    unfold cell in Hnum. by rewrite Hv in Hnum.
Qed.

(** X4: cleaning a cleaned chunk again returns it unchanged, for parsers
    that leave a timestamp, a number and NaN as they are (as pandas does
    on columns that already have the target type). *)
Theorem cleaning_is_idempotent df cleaned :
  (∀ s t, to_datetime s (VTime t) = Some t) →
  (∀ s x, to_numeric s (VNum x) = Some x) →
  (∀ s, to_numeric s VNaN = None) →
  clean_chunk df = Ok cleaned →
  clean_chunk cleaned = Ok cleaned.
Proof.
  intros Htime Hnum Hnan Hclean.
  pose proof (cleaned_cells df cleaned) as Hcells.
  destruct (clean_chunk_Ok _ _ Hclean)
    as (i & j & a & b & c & Hi & Hj & Ha & Hb & Hc & Hcleaned).
  assert (Hcols : columns cleaned = columns df) by by rewrite Hcleaned.
  assert (Hconv : convert_types cleaned = cleaned).
  { unfold convert_types.
    assert (foldl (convert_column datetime_cell) cleaned datetime_cols = cleaned)
      as ->.
    { apply foldl_convert_fixed. rewrite Hcols. intros col k r v Hcol Hk Hr Hv.
      destruct (Hcells r Hclean Hr) as [Hd _].
      destruct (Hd col k v Hcol Hk Hv) as [t ->].
      unfold datetime_cell. by rewrite Htime. }
    apply foldl_convert_fixed. rewrite Hcols. intros col k r v Hcol Hk Hr Hv.
    destruct (Hcells r Hclean Hr) as [_ Hn].
    unfold numeric_cell.
    destruct (Hn col k v Hcol Hk Hv) as [->|[x ->]]; by rewrite ?Hnan, ?Hnum. }
  destruct (clean_chunk_returns cleaned) as [again Hagain].
  { rewrite Hcols. intros col Hcol. unfold required_cols in Hcol.
    repeat (apply elem_of_cons in Hcol as [->|Hcol]); eauto using index_of_elem.
    by apply elem_of_nil in Hcol. }
  rewrite Hagain. f_equal.
  destruct (clean_chunk_Ok _ _ Hagain)
    as (i' & j' & a' & b' & c' & Hi' & Hj' & Ha' & Hb' & Hc' & ->).
  rewrite Hconv. rewrite Hcols in Hi', Hj', Ha', Hb', Hc'.
  assert (i' = i) as -> by congruence. assert (j' = j) as -> by congruence.
  assert (a' = a) as -> by congruence. assert (b' = b) as -> by congruence.
  assert (c' = c) as -> by congruence.
  assert (Hkept : ∀ r, r ∈ rows cleaned →
            row_notna [i; j] r = true ∧
            row_nonneg a r && row_nonneg b r && row_nonneg c r = true).
  { rewrite Hcleaned. cbn [rows].
    by intros r [? [? _]%list_elem_of_filter]%list_elem_of_filter. }
  rewrite (filter_fixed (λ r, row_notna [i; j] r = true))
    by (intros r Hr; by apply Hkept).
  rewrite filter_fixed by (intros r Hr; by apply Hkept).
  by destruct cleaned.
Qed.

(** ** The records and the sub-batches *)

Lemma fmap_fixed {A : Type} (f : A → A) (l : list A) :
  (∀ x, x ∈ l → f x = x) → f <$> l = l.
Proof.
  induction l as [|x l IH]; intros Hfix; [done|].
  rewrite fmap_cons, Hfix by by left.
  f_equal. apply IH. intros y Hy. apply Hfix. by right.
Qed.

(** A dict built from a row and read back under the same unique labels
    gives the row. *)
Lemma tuple_of_to_dict cols (r : list value) :
  NoDup cols → length r = length cols →
  tuple_of cols (list_to_map (reverse (zip cols r))) = r.
Proof.
  intros Hnd Hlen. apply list_eq. intros k. unfold tuple_of.
  rewrite list_lookup_fmap.
  destruct (cols !! k) as [c|] eqn:Hc; cbn.
  - destruct (lookup_lt_is_Some_2 r k) as [v Hv].
    { apply lookup_lt_Some in Hc. lia. }
    rewrite Hv. f_equal.
    assert ((list_to_map (reverse (zip cols r)) : gmap string value) !! c = Some v)
      as ->; [|done].
    apply elem_of_list_to_map.
    + rewrite fmap_reverse, fst_zip by lia. by rewrite reverse_Permutation.
    + apply elem_of_reverse, (list_elem_of_lookup_2 _ k). by apply lookup_zip_Some.
  - symmetry. apply lookup_ge_None. apply lookup_ge_None in Hc. lia.
Qed.

Lemma schema_map_row_length typed chunk r :
  r ∈ rows (schema_map typed chunk) → length r = length (columns (schema_map typed chunk)).
Proof.
  unfold schema_map, replace_nat_none, schema_frame, rename, select_columns.
  cbn [rows columns].
  intros (r1 & -> & (r0 & -> & _)%list_elem_of_fmap)%list_elem_of_fmap.
  by rewrite length_imap, !length_fmap.
Qed.

Lemma schema_map_length typed chunk :
  length (rows (schema_map typed chunk)) = length (rows chunk).
Proof.
  unfold schema_map, replace_nat_none, schema_frame, rename, select_columns.
  cbn [rows columns]. by rewrite !length_fmap.
Qed.

Lemma chunk_records_length typed chunk :
  length (chunk_records typed chunk) = length (rows chunk).
Proof.
  unfold chunk_records, to_dict_records. by rewrite length_fmap, schema_map_length.
Qed.

(** X7: when the labels of the mapped frame are distinct, the tuples that
    are sent to the store are the rows of that frame: going through the
    dicts of [to_dict] and back through [r.get] loses and invents
    nothing. *)
Theorem records_are_the_mapped_rows typed chunk :
  NoDup (chunk_keys chunk) →
  tuple_of (chunk_keys chunk) <$> chunk_records typed chunk
    = rows (schema_map typed chunk).
Proof.
  intros Hnd. unfold chunk_records, to_dict_records.
  rewrite <- list_fmap_compose. apply fmap_fixed. intros r Hr. cbn.
  apply tuple_of_to_dict; [done|]. by apply (schema_map_row_length typed).
Qed.

Lemma concat_take_drop {A B : Type} (f : A → B) s m (l : list A) :
  concat ((λ k, f <$> take s (drop (k * s) l)) <$> seq 0 m) = f <$> take (m * s) l.
Proof.
  induction m as [|m IH]; [done|].
  rewrite seq_S, fmap_app, concat_app, IH. cbn [fmap list_fmap concat].
  rewrite app_nil_r, <- fmap_app, take_take_drop. do 2 f_equal. lia.
Qed.

Lemma ceil_div_bounds n s :
  0 < s →
  n ≤ (n + s - 1) / s * s ∧ ∀ k, k < (n + s - 1) / s → k * s < n.
Proof.
  intros Hs.
  pose proof (Nat.div_mod_eq (n + s - 1) s) as Hdiv.
  pose proof (Nat.mod_upper_bound (n + s - 1) s) as Hmod.
  split; [nia|]. intros k Hk.
  assert (s * (k + 1) ≤ s * ((n + s - 1) / s)) by (apply Nat.mul_le_mono_l; lia).
  nia.
Qed.

Lemma range_offsets_cover keys records batch_size :
  (0 < batch_size)%Z →
  ∃ offsets,
    range_offsets (length records) batch_size = Ok offsets ∧
    concat (batch_values keys records (Z.to_nat batch_size) <$> offsets)
      = tuple_of keys <$> records ∧
    ∀ j, j ∈ offsets →
      0 < length (batch_values keys records (Z.to_nat batch_size) j)
        ≤ Z.to_nat batch_size.
Proof.
  intros Hpos. unfold range_offsets.
  rewrite decide_False, decide_False by lia.
  set (s := Z.to_nat batch_size). assert (Hs : 0 < s) by lia.
  destruct (ceil_div_bounds (length records) s Hs) as [Hcover Hlast].
  eexists. split; [done|]. split.
  - rewrite <- list_fmap_compose. unfold batch_values, compose.
    rewrite concat_take_drop. by rewrite take_ge.
  - intros j (k & -> & Hk)%list_elem_of_fmap.
    apply elem_of_seq in Hk as [_ Hk]. unfold batch_values.
    rewrite length_fmap, length_take, length_drop.
    specialize (Hlast k Hk). lia.
Qed.

(** X8: for a positive batch size the sub-batches split the records: put
    end to end, in the order they are sent, they are the tuples of all the
    records, each once; every sub-batch holds at least one record and at
    most [batch_size]. *)
Theorem sub_batches_partition_records keys records batch_size :
  (0 < batch_size)%Z →
  ∃ offsets,
    range_offsets (length records) batch_size = Ok offsets ∧
    concat (batch_values keys records (Z.to_nat batch_size) <$> offsets)
      = tuple_of keys <$> records ∧
    ∀ j, j ∈ offsets →
      0 < length (batch_values keys records (Z.to_nat batch_size) j)
        ≤ Z.to_nat batch_size.
Proof. apply range_offsets_cover. Qed.

Lemma sum_list_with_fmap {A B : Type} (f : B → nat) (g : A → B) (l : list A) :
  sum_list_with f (g <$> l) = sum_list_with (f ∘ g) l.
Proof. induction l as [|x l IH]; [done|]. cbn. by rewrite IH. Qed.

(** X9: when the connection opens and the store takes every statement and
    every commit of a chunk, with a positive batch size, every cleaned row
    of the chunk is inserted: [inserted] is the number of cleaned rows, the
    table grows by the tuples of all the records, in order, nothing is left
    pending and the connection is closed. *)
Theorem accepted_chunk_is_fully_inserted batch_size i typed chunk w :
  (0 < batch_size)%Z →
  connect_ok db i = true →
  (∀ j vals, execute_ok db i j vals = true) →
  (∀ j, commit_ok db i j = true) →
  ∃ w', load_chunk batch_size i typed chunk w = (w', Ok (length (rows chunk))) ∧
        table w' = table w ++ (tuple_of (chunk_keys chunk) <$> chunk_records typed chunk) ∧
        pending w' = [] ∧
        (i ∉ open_conns w').
Proof.
  intros Hpos Hconn Hexec Hcommit.
  destruct (range_offsets_cover (chunk_keys chunk) (chunk_records typed chunk)
              batch_size Hpos) as (offsets & Hrange & Hconcat & _).
  unfold load_chunk, mbind at 1, M_bind, connect. rewrite Hconn.
  unfold insert_batches. change (columns (schema_map typed chunk)) with (chunk_keys chunk);
    fold (chunk_records typed chunk).
  rewrite Hrange, insert_loop_accepted;
    [|done|intros k _; unfold batch_accepted; by rewrite Hexec, Hcommit].
  eexists. split; [|split; [|split]].
  - do 2 f_equal. cbn [Nat.add].
    change (λ k, length (batch_values (chunk_keys chunk) (chunk_records typed chunk)
                           (Z.to_nat batch_size) k))
      with (length ∘ batch_values (chunk_keys chunk) (chunk_records typed chunk)
                       (Z.to_nat batch_size)).
    by rewrite <- sum_list_with_fmap, <- length_concat_sum, Hconcat, length_fmap,
         chunk_records_length.
  - cbn [close fst table]. by rewrite Hconcat.
  - done.
  - cbn [close fst open_conns]. rewrite list_elem_of_filter. by intros [? _].
Qed.

(** X10: a batch size of zero or less inserts nothing and is no error for
    the run: with zero, [range] raises [ValueError] inside the [try], the
    failure is printed, the rollback is called and the connection stays
    open; with a negative size the loop has no turn, nothing is printed and
    the connection is closed. Either way [inserted] is 0 and the table is
    untouched. *)
Theorem nonpositive_batch_size_inserts_nothing batch_size i typed chunk w :
  (batch_size ≤ 0)%Z →
  connect_ok db i = true →
  ∃ w', load_chunk batch_size i typed chunk w = (w', Ok 0) ∧
        table w' = table w ∧
        trace w' =
          trace w ++
          (if decide (batch_size = 0)%Z
           then [EvConnect i; EvPrint (LogInsertFailed i ValueError); EvRollback i]
           else [EvConnect i; EvClose i]) ∧
        (i ∈ open_conns w' ↔ batch_size = 0%Z).
Proof.
  intros Hle Hconn.
  unfold load_chunk, mbind at 1, M_bind, connect. rewrite Hconn.
  unfold insert_batches, range_offsets.
  destruct (decide (batch_size = 0)%Z) as [Hz|Hnz].
  - unfold print, emit, rollback, mbind, M_bind, mret, M_ret.
    cbn [table pending open_conns tmpfile trace].
    eexists. split; [reflexivity|]. cbn [table trace open_conns].
    split; [done|]. split; [by rewrite <- !app_assoc|].
    split; [done|]. intros _. apply elem_of_app. right. by left.
  - rewrite decide_True by lia. cbn [insert_loop close fst].
    eexists. split; [reflexivity|]. cbn [table trace open_conns].
    split; [done|]. split; [by rewrite <- !app_assoc|].
    rewrite list_elem_of_filter. split; [by intros [? _]|done].
Qed.

(** X11: the connection of a chunk is opened outside the [try]: when it
    fails for a chunk that has rows to insert, the exception ends the loop
    at once, with nothing printed for the chunk, the later chunks not read
    and no total returned. *)
Theorem failed_connection_aborts_run batch_size i total raw chunk rest w :
  clean_chunk raw = Ok chunk →
  rows chunk ≠ [] →
  connect_ok db i = false →
  chunk_loop batch_size i total (NextChunk raw rest) w = (w, Err DatabaseError).
Proof.
  intros Hclean Hrows Hconn. cbn [chunk_loop].
  unfold mbind at 1, M_bind at 1, lift. rewrite Hclean.
  destruct (length (rows chunk) =? 0) eqn:Hlen.
  { apply Nat.eqb_eq, nil_length_inv in Hlen. done. }
  unfold mbind at 1, M_bind at 1, load_chunk, mbind at 1, M_bind at 1, connect.
  by rewrite Hconn.
Qed.

(** ** Counts and connections over a run *)

Lemma insert_loop_bound i keys records size offsets inserted w w' n r :
  insert_loop i keys records size offsets inserted w = (w', n, r) →
  n ≤ inserted + sum_list_with (λ k, length (batch_values keys records size k)) offsets.
Proof.
  revert inserted w.
  induction offsets as [|j offsets IH]; intros inserted w; cbn [insert_loop].
  - intros [= _ <- _]. cbn. lia.
  - destruct ((executemany i j _;; commit i j) w) as [w1 [[]|e]].
    + intros Hloop%IH. cbn [sum_list_with]. unfold batch_values at 1.
      rewrite length_fmap. lia.
    + intros [= _ <- _]. lia.
Qed.

Lemma range_offsets_sum keys records batch_size offsets :
  range_offsets (length records) batch_size = Ok offsets →
  sum_list_with (λ k, length (batch_values keys records (Z.to_nat batch_size) k)) offsets
    ≤ length records.
Proof.
  intros Hrange. destruct (decide (0 < batch_size)%Z) as [Hpos|Hneg].
  - destruct (range_offsets_cover keys records batch_size Hpos)
      as (offsets' & Hrange' & Hconcat & _).
    assert (offsets' = offsets) as -> by congruence.
    change (λ k, length (batch_values keys records (Z.to_nat batch_size) k))
      with (length ∘ batch_values keys records (Z.to_nat batch_size)).
    by rewrite <- sum_list_with_fmap, <- length_concat_sum, Hconcat, length_fmap.
  - unfold range_offsets in Hrange.
    destruct (decide (batch_size = 0)%Z); [done|].
    rewrite decide_True in Hrange by lia. injection Hrange as <-. cbn. lia.
Qed.

Lemma load_chunk_bound batch_size i typed chunk w w' n :
  load_chunk batch_size i typed chunk w = (w', Ok n) → n ≤ length (rows chunk).
Proof.
  unfold load_chunk, mbind at 1, M_bind, connect.
  destruct (connect_ok db i); [|done].
  unfold insert_batches. change (columns (schema_map typed chunk)) with (chunk_keys chunk);
    fold (chunk_records typed chunk).
  destruct (range_offsets (length (chunk_records typed chunk)) batch_size)
    as [offsets|e] eqn:Hrange.
  - pose proof (range_offsets_sum (chunk_keys chunk) _ _ _ Hrange) as Hsum.
    rewrite chunk_records_length in Hsum.
    destruct (insert_loop i _ _ _ offsets 0 _) as [[w2 m] [[]|e]] eqn:Hloop;
      apply insert_loop_bound in Hloop.
    + intros [= _ <-]. lia.
    + unfold print, emit, rollback, mbind, M_bind, mret, M_ret.
      intros [= _ <-]. lia.
  - unfold print, emit, rollback, mbind, M_bind, mret, M_ret.
    intros [= _ <-]. lia.
Qed.

Lemma clean_chunk_length df cleaned :
  clean_chunk df = Ok cleaned → length (rows cleaned) ≤ length (rows df).
Proof.
  intros (i & j & a & b & c & _ & _ & _ & _ & _ & ->)%clean_chunk_Ok.
  cbn [rows]. rewrite <- (convert_types_length df).
  etrans; [apply length_filter|]. apply length_filter.
Qed.

Lemma chunk_loop_bound batch_size src i total w w' t :
  chunk_loop batch_size i total src w = (w', Ok t) →
  t ≤ total + rows_read src.
Proof.
  revert i total w.
  induction src as [|chunk rest IH|e]; intros i total w; cbn [chunk_loop rows_read].
  - intros [= _ <-]. lia.
  - unfold mbind at 1, M_bind at 1, lift.
    destruct (clean_chunk chunk) as [cleaned|e] eqn:Hclean; [|done].
    apply clean_chunk_length in Hclean.
    destruct (length (rows cleaned) =? 0).
    + unfold mbind, M_bind, print, emit. intros Hloop%IH. lia.
    + unfold mbind at 1, M_bind at 1.
      destruct (load_chunk batch_size i _ cleaned w) as [w1 [inserted|e]] eqn:Hload;
        [|done].
      apply load_chunk_bound in Hload.
      unfold mbind, M_bind, print, emit. intros Hloop%IH. lia.
  - done.
Qed.

(** X12: the loader never reports more rows than it read: the total that
    [chunk_and_insert] returns is at most the number of rows of the chunks
    of the file. *)
Theorem total_inserted_at_most_rows_read src batch_size w w' total :
  chunk_and_insert src batch_size w = (w', Ok total) →
  total ≤ rows_read src.
Proof.
  unfold chunk_and_insert, mbind, M_bind.
  destruct (chunk_loop batch_size 0 0 src w) as [w1 [t|e]] eqn:Hloop; [|done].
  apply chunk_loop_bound in Hloop.
  unfold print, emit, mret, M_ret. intros [= _ <-]. lia.
Qed.




(** ** The verifier and the driver, on every path *)

Lemma verify_only_traces w :
  ∃ tr r, verify_counts_and_aggregates w =
            (mkWorld (table w) (pending w) (open_conns w) (tmpfile w) (trace w ++ tr), r).
Proof.
  unfold verify_counts_and_aggregates, mbind at 1, M_bind at 1, connect_db.
  destruct (verify_connect_ok db).
  - unfold emit at 1. cbn beta iota.
    unfold try_finally, mbind, M_bind, query_count, query_sample, emit, mret, M_ret.
    cbn [table pending open_conns tmpfile trace].
    destruct (count_query_ok db).
    + cbn. destruct (sample_query db (table w)); cbn; rewrite <- app_assoc;
        by eexists _, _.
    + cbn. rewrite <- app_assoc. by eexists _, _.
  - unfold print, emit, raise, mbind, M_bind. by eexists _, _.
Qed.

Lemma verify_read_only w :
  table (fst (verify_counts_and_aggregates w)) = table w ∧
  pending (fst (verify_counts_and_aggregates w)) = pending w ∧
  open_conns (fst (verify_counts_and_aggregates w)) = open_conns w ∧
  tmpfile (fst (verify_counts_and_aggregates w)) = tmpfile w.
Proof. by destruct (verify_only_traces w) as (tr & r & ->). Qed.

(** X14: the verifier only reads: whether it returns its counts, fails to
    connect or fails on a query, the table, the transaction of the loader,
    its connections and the staging file are as before the call. *)
Theorem verification_never_writes w :
  table (fst (verify_counts_and_aggregates w)) = table w ∧
  pending (fst (verify_counts_and_aggregates w)) = pending w ∧
  open_conns (fst (verify_counts_and_aggregates w)) = open_conns w ∧
  tmpfile (fst (verify_counts_and_aggregates w)) = tmpfile w.
Proof. apply verify_read_only. Qed.

Lemma acquire_table a w w0 r :
  acquire a w = (w0, r) → table w0 = table w.
Proof.
  unfold acquire. destruct (arg_file a) as [src|]; [by intros [= <- _]|].
  destruct (arg_no_download a); [by intros [= <- _]|].
  unfold stream_download, print, emit, raise, mbind, M_bind, mret, M_ret.
  cbn [table pending open_conns tmpfile trace].
  by destruct (download db); intros [= <- _].
Qed.

Lemma load_table_length a w w1 inserted :
  load a w = (w1, Ok inserted) →
  length (table w1) = length (table w) + inserted.
Proof.
  unfold load, mbind, M_bind.
  destruct (acquire a w) as [w0 [csv|e]] eqn:Hacq; [|done].
  apply acquire_table in Hacq as Htbl.
  intros (n & (tr & _ & Htbl1 & -> & _) & Hn)%chunk_and_insert_loaded.
  rewrite (Hn inserted eq_refl), Htbl1, Htbl, length_app.
  by rewrite length_concat_sum.
Qed.

(** X15: when the load returns and the verifier succeeds, the count that
    [main] prints is the number of rows the table had before the run plus
    the total that the loader returned, and the process ends normally. *)
Theorem verified_count_is_initial_plus_inserted a w w1 inserted sample :
  load a w = (w1, Ok inserted) →
  verify_connect_ok db = true →
  count_query_ok db = true →
  sample_query db (table w1) = Some sample →
  ∃ w2, main a w = (w2, Ok ()) ∧
        table w2 = table w1 ∧
        trace w2 =
          trace w1 ++
          [EvVerifyConnect; EvVerifyClose;
           EvPrint (LogVerifyCount (length (table w) + inserted));
           EvPrint (LogVerifySample sample)] ++
          (if match arg_file a with Some _ => false | None => tmpfile w1 end
           then [EvRemoveTmp] else []).
Proof.
  intros Hload Hconn Hcount Hsample.
  pose proof (load_table_length _ _ _ _ Hload) as Hlen.
  unfold main, try_finally, mbind at 1, M_bind at 1. rewrite Hload.
  unfold verify_counts_and_aggregates, connect_db. rewrite Hconn.
  unfold try_finally, mbind, M_bind, query_count, query_sample, print, emit,
    mret, M_ret, remove_tmpfile.
  cbn [table pending open_conns tmpfile trace fst snd].
  rewrite Hcount. cbn [table]. rewrite Hsample.
  cbn [table pending open_conns tmpfile trace fst snd]. rewrite Hlen.
  destruct (match arg_file a with Some _ => false | None => tmpfile w1 end);
    eexists; (split; [reflexivity|]); cbn [table trace];
    by rewrite <- ?app_assoc, ?app_nil_r.
Qed.

(** X16: when the verifier cannot connect, [connect_db] prints the failure
    and exits: the exception leaves [main] through its [finally], the
    process ends with status 1, no query is sent and the committed rows
    are as the load left them. *)
Theorem failed_verifier_connection_exits a w w1 inserted :
  load a w = (w1, Ok inserted) →
  verify_connect_ok db = false →
  ∃ w2, main a w = (w2, Err (SystemExit 1)) ∧
        exit_status_of (snd (main a w)) = 1%Z ∧
        table w2 = table w1 ∧
        trace w2 =
          trace w1 ++ [EvPrint LogConnectionFailed] ++
          (if match arg_file a with Some _ => false | None => tmpfile w1 end
           then [EvRemoveTmp] else []).
Proof.
  intros Hload Hconn.
  assert (Hmain : ∃ w2, main a w = (w2, Err (SystemExit 1)) ∧
            table w2 = table w1 ∧
            trace w2 =
              trace w1 ++ [EvPrint LogConnectionFailed] ++
              (if match arg_file a with Some _ => false | None => tmpfile w1 end
               then [EvRemoveTmp] else [])).
  { unfold main, try_finally, mbind at 1, M_bind at 1. rewrite Hload.
    unfold verify_counts_and_aggregates, connect_db. rewrite Hconn.
    unfold mbind, M_bind, print, emit, raise, remove_tmpfile.
    cbn [table pending open_conns tmpfile trace fst snd].
    destruct (match arg_file a with Some _ => false | None => tmpfile w1 end);
      eexists; (split; [reflexivity|]); cbn [table trace];
      by rewrite <- ?app_assoc, ?app_nil_r. }
  destruct Hmain as (w2 & Hmain & Htbl & Htr).
  exists w2. by rewrite Hmain.
Qed.

Lemma keeps_tmpfile_bind {A B : Type} (m : M A) (f : A → M B) :
  keeps_tmpfile m → (∀ a, keeps_tmpfile (f a)) → keeps_tmpfile (m ≫= f).
Proof.
  intros Hm Hf w. unfold mbind, M_bind. specialize (Hm w).
  destruct (m w) as [w1 [a|e]]; cbn [fst] in *; [|done].
  by rewrite Hf.
Qed.

Lemma keeps_tmpfile_emit e : keeps_tmpfile (emit e).
Proof. by intros w. Qed.

Lemma keeps_tmpfile_chunk_and_insert src batch_size :
  keeps_tmpfile (chunk_and_insert src batch_size).
Proof.
  intros w. destruct (chunk_and_insert src batch_size w) as [w' r] eqn:Hrun.
  by apply chunk_and_insert_loaded in Hrun as (n & (tr & _ & _ & _ & Htmp & _) & _).
Qed.

Lemma keeps_tmpfile_after {A B : Type} (m : M A) (f : A → M B) w :
  (∀ a, keeps_tmpfile (f a)) →
  tmpfile (fst ((m ≫= f) w)) = tmpfile (fst (m w)).
Proof.
  intros Hf. unfold mbind, M_bind.
  destruct (m w) as [w1 [a|e]]; cbn [fst]; [apply Hf | done].
Qed.

Lemma acquire_tmpfile a w :
  tmpfile (fst (acquire a w)) =
    match arg_file a with
    | Some _ => tmpfile w
    | None => staging_file_exists a w
    end.
Proof.
  unfold acquire, staging_file_exists. destruct (arg_file a) as [src|]; [done|].
  destruct (arg_no_download a); cbn [negb andb fst mret M_ret].
  { by rewrite orb_false_r. }
  unfold stream_download, print, emit, raise, mbind, M_bind, mret, M_ret.
  cbn [table pending open_conns tmpfile trace].
  destruct (download db); cbn [fst tmpfile].
  - by rewrite orb_true_r.
  - by rewrite orb_false_r.
  - by rewrite orb_true_r.
Qed.

(** X17: with [--file] the script neither creates nor removes the staging
    file. Without it, on every path through [main], the staging file is
    there after the run exactly when it existed at the [finally] (it was
    there before, or the download created it) and [os.remove] failed: the
    failure is swallowed and the file stays; when [os.remove] works no
    staging file is left. *)
Theorem staging_file_after_main a w :
  tmpfile (fst (main a w)) =
    match arg_file a with
    | Some _ => tmpfile w
    | None => staging_file_exists a w && negb (remove_ok db)
    end.
Proof.
  unfold main, try_finally.
  destruct ((load a ≫= _) w) as [w1 r] eqn:Hbody.
  assert (Hw1 : tmpfile w1 = tmpfile (fst (acquire a w))).
  { change w1 with (fst (w1, r)). rewrite <- Hbody.
    rewrite keeps_tmpfile_after.
    - unfold load. apply keeps_tmpfile_after.
      intros csv. apply keeps_tmpfile_chunk_and_insert.
    - intros n. apply keeps_tmpfile_bind.
      + intros w0. apply verify_read_only.
      + intros v. apply keeps_tmpfile_bind; [apply keeps_tmpfile_emit|].
        intros _. apply keeps_tmpfile_emit. }
  rewrite acquire_tmpfile in Hw1. unfold remove_tmpfile.
  destruct (arg_file a) as [src|]; [done|].
  rewrite Hw1. by destruct (staging_file_exists a w).
Qed.

(** ** Renamed timestamp columns *)

Lemma positions_from_lookup k c cols p :
  cols !! p = Some c → k + p ∈ positions_from k c cols.
Proof.
  revert k p. induction cols as [|c' cols IH]; intros k p; [done|].
  destruct p as [|p]; cbn [positions_from lookup list_lookup].
  - intros [= ->]. rewrite String.eqb_refl, Nat.add_0_r. by left.
  - intros Hp. apply elem_of_app. right.
    replace (k + S p) with (S k + p) by lia. by apply IH.
Qed.

Lemma NoDup_fmap_inj_on {A B : Type} (f : A → B) (l : list A) x y :
  NoDup (f <$> l) → x ∈ l → y ∈ l → f x = f y → x = y.
Proof.
  induction l as [|z l IH]; intros Hnd Hx Hy Heq; [by apply elem_of_nil in Hx|].
  rewrite fmap_cons in Hnd. apply NoDup_cons in Hnd as [Hnotin Hnd].
  apply elem_of_cons in Hx as [->|Hx]; apply elem_of_cons in Hy as [->|Hy].
  - done.
  - destruct Hnotin. rewrite Heq. by apply list_elem_of_fmap_2.
  - destruct Hnotin. rewrite <- Heq. by apply list_elem_of_fmap_2.
  - by apply IH.
Qed.

(** Selecting a label that two columns carry gives a frame with a label
    twice. *)
Lemma select_columns_duplicate labels df c p q :
  c ∈ labels → columns df !! p = Some c → columns df !! q = Some c → p ≠ q →
  ¬ NoDup (columns (select_columns labels df)).
Proof.
  intros Hc Hp Hq Hne Hnd. unfold select_columns in Hnd. cbn [columns] in Hnd.
  set (picked := labels ≫= λ c, (λ i, (c, i)) <$> positions_from 0 c (columns df))
    in Hnd.
  assert (Hin : ∀ k, columns df !! k = Some c → (c, k) ∈ picked).
  { intros k Hk. apply list_elem_of_bind. exists c. split; [|done].
    apply list_elem_of_fmap. exists k. split; [done|].
    by apply (positions_from_lookup 0). }
  pose proof (NoDup_fmap_inj_on fst picked (c, p) (c, q) Hnd (Hin p Hp) (Hin q Hq)
                eq_refl).
  congruence.
Qed.

Lemma renamed_column_duplicates_a_key raw chunk lpep canon :
  (∀ cols, col_map cols !! canon = None) →
  (∀ cols, lpep ∈ cols → col_map cols !! lpep = Some canon) →
  lpep ≠ canon → canon ∈ allowed → canon ∈ datetime_cols →
  clean_chunk raw = Ok chunk → lpep ∈ columns raw →
  ¬ NoDup (chunk_keys chunk).
Proof.
  intros Hcanon Hlpep Hne Hallowed Hdt Hclean Hin.
  assert (Hcols : columns chunk = columns raw).
  { by apply clean_chunk_Ok in Hclean as (i & j & a & b & c & _ & _ & _ & _ & _ & ->). }
  assert (Hpresent : canon ∈ columns raw).
  { apply clean_chunk_Ok in Hclean as (i & j & a & b & c & Hi & Hj & _).
    unfold datetime_cols in Hdt.
    repeat (apply elem_of_cons in Hdt as [->|Hdt]); eauto using index_of_elem.
    by apply elem_of_nil in Hdt. }
  apply list_elem_of_lookup_1 in Hpresent as [p Hp].
  apply list_elem_of_lookup_1 in Hin as [q Hq].
  assert (p ≠ q) by congruence.
  unfold chunk_keys, schema_frame. cbn [columns].
  intros Hnd%NoDup_fmap_1. revert Hnd.
  apply (select_columns_duplicate _ _ canon p q); [|..|done].
  - unfold present. apply list_elem_of_filter. split; [done|].
    rewrite rename_columns, Hcols. apply list_elem_of_fmap. exists canon.
    split; [by rewrite Hcanon | by eapply list_elem_of_lookup_2].
  - rewrite rename_columns, Hcols, list_lookup_fmap, Hp. cbn. by rewrite Hcanon.
  - rewrite rename_columns, Hcols, list_lookup_fmap, Hq. cbn.
    rewrite Hlpep; [done|]. by eapply list_elem_of_lookup_2.
Qed.

Lemma col_map_lookup cols c :
  c ∈ ["lpep_pickup_datetime"; "lpep_dropoff_datetime"; "pickup_datetime";
       "dropoff_datetime"] →
  col_map cols !! c =
    if String.eqb c "lpep_pickup_datetime" && bool_decide ("lpep_pickup_datetime" ∈ cols)
    then Some "pickup_datetime"
    else if String.eqb c "lpep_dropoff_datetime"
            && bool_decide ("lpep_dropoff_datetime" ∈ cols)
    then Some "dropoff_datetime"
    else None.
Proof.
  intros Hc. unfold col_map.
  destruct (bool_decide ("lpep_pickup_datetime" ∈ cols)),
    (bool_decide ("lpep_dropoff_datetime" ∈ cols)),
    (bool_decide ("PULocationID" ∈ cols));
    repeat (apply elem_of_cons in Hc as [->|Hc]; [by vm_compute|]);
    by apply elem_of_nil in Hc.
Qed.

(** X18: the renames of lines 82 to 85 come after cleaning, which needs
    [pickup_datetime] and [dropoff_datetime] themselves: a chunk that gets
    through cleaning with an [lpep_] timestamp column has, after the
    rename, two columns with one label, and the INSERT that is built names
    that column more than once. *)
Theorem lpep_column_duplicates_a_key raw chunk lpep :
  lpep ∈ ["lpep_pickup_datetime"; "lpep_dropoff_datetime"] →
  clean_chunk raw = Ok chunk →
  lpep ∈ columns raw →
  ¬ NoDup (chunk_keys chunk).
Proof.
  intros Hlpep.
  repeat (apply elem_of_cons in Hlpep as [->|Hlpep]);
    [| |by apply elem_of_nil in Hlpep].
  - apply (renamed_column_duplicates_a_key raw chunk _ "pickup_datetime");
      [| |done|unfold allowed; set_solver|unfold datetime_cols; set_solver].
    + intros cols. by rewrite col_map_lookup by set_solver.
    + intros cols Hin. rewrite col_map_lookup by set_solver.
      by rewrite bool_decide_eq_true_2.
  - apply (renamed_column_duplicates_a_key raw chunk _ "dropoff_datetime");
      [| |done|unfold allowed; set_solver|unfold datetime_cols; set_solver].
    + intros cols. by rewrite col_map_lookup by set_solver.
    + intros cols Hin. rewrite col_map_lookup by set_solver.
      cbn [String.eqb Ascii.eqb Bool.eqb andb]. by rewrite bool_decide_eq_true_2.
Qed.

(** ** The scenario of the three rows *)






End Pipeline.

(** * The model on concrete inputs *)

(** ** The cleaner *)

Lemma clean_chunk_never_adds_rows_witness :
  clean_chunk sample_to_datetime sample_to_numeric scenario_chunk_full
    = Ok scenario_cleaned ∧
  length (rows scenario_cleaned) ≤ length (rows scenario_chunk_full).
Proof.
  split; [by vm_compute|].
  apply (clean_chunk_never_adds_rows sample_to_datetime sample_to_numeric
           scenario_chunk_full scenario_cleaned).
  by vm_compute.
Defined.

Lemma cleaned_rows_valid_witness :
  clean_chunk sample_to_datetime sample_to_numeric negative_tip_chunk
    = Ok negative_tip_cleaned ∧
  (cleaned_trip 10 ++ [int (-1)]) ∈ rows negative_tip_cleaned ∧
  cleaned_row_invariant checked_cols negative_tip_cleaned
    (cleaned_trip 10 ++ [int (-1)]) ∧
  ∀ c, c ∈ num_cols →
    number_or_missing (field negative_tip_cleaned (cleaned_trip 10 ++ [int (-1)]) c).
Proof.
  split; [by vm_compute|]. split; [by left|].
  apply (cleaned_rows_valid sample_to_datetime sample_to_numeric
           negative_tip_chunk negative_tip_cleaned).
  - by vm_compute.
  - by left.
Defined.

(** C3 as stated fails: a trip with [tip_amount = -1] and nothing else
    wrong comes out of the cleaner with its negative tip. *)
Lemma negative_tip_survives_cleaning :
  clean_chunk sample_to_datetime sample_to_numeric negative_tip_chunk
    = Ok negative_tip_cleaned ∧
  (cleaned_trip 10 ++ [int (-1)]) ∈ rows negative_tip_cleaned ∧
  ¬ cleaned_row_invariant num_cols negative_tip_cleaned
      (cleaned_trip 10 ++ [int (-1)]).
Proof.
  split; [by vm_compute|]. split; [by left|].
  intros (_ & _ & Hnum).
  destruct (Hnum "tip_amount") as [H|[H|(x & H & Hx)]].
  - unfold num_cols. set_solver.
  - by vm_compute in H.
  - by vm_compute in H.
  - vm_compute in H. injection H as <-. by vm_compute in Hx.
Qed.

Lemma clean_chunk_requires_columns_witness :
  "pickup_datetime" ∈ required_cols ∧
  ("pickup_datetime" ∉ columns green_chunk) ∧
  ∃ ks, ks ≠ [] ∧
    clean_chunk sample_to_datetime sample_to_numeric green_chunk = Err (KeyError ks) ∧
    ∀ batch_size i total rest w,
      chunk_loop sample_to_datetime sample_to_numeric steady_db batch_size i total
        (NextChunk green_chunk rest) w = (w, Err (KeyError ks)).
Proof.
  assert (Hreq : "pickup_datetime" ∈ required_cols) by by left.
  assert (Hmiss : "pickup_datetime" ∉ columns green_chunk).
  { apply (bool_decide_unpack _). by vm_compute. }
  split; [done|]. split; [done|].
  exact (clean_chunk_requires_columns sample_to_datetime sample_to_numeric
           steady_db green_chunk "pickup_datetime" Hreq Hmiss).
Defined.


(** The scenario lists four columns. A chunk with no more than these is
    not cleaned: the cleaner raises, whatever the parsers, under the
    labels of the scenario at the [dropna] of line 62, and with the
    timestamps under [pickup_datetime] and [dropoff_datetime] at line 64,
    for want of a [passenger_count] column (the columns that the cleaner
    needs are the matter of C10). *)
Example scenario_chunk_raises_KeyError
    (to_datetime : list value → value → option Timestamp)
    (to_numeric : list value → value → option number) (db : driver) :
  clean_chunk to_datetime to_numeric scenario_chunk
    = Err (KeyError ["pickup_datetime"; "dropoff_datetime"]) ∧
  clean_chunk to_datetime to_numeric scenario_chunk_named
    = Err (KeyError ["passenger_count"]) ∧
  chunk_and_insert to_datetime to_numeric db
      (NextChunk scenario_chunk_named EndOfFile) 5000 (init_world [])
    = (init_world [], Err (KeyError ["passenger_count"])).
Proof.
  assert (Hnamed : clean_chunk to_datetime to_numeric scenario_chunk_named
            = Err (KeyError ["passenger_count"])).
  { by rewrite clean_chunk_unfold. }
  split; [by rewrite clean_chunk_unfold|]. split; [done|].
  unfold chunk_and_insert, mbind, M_bind.
  by rewrite (chunk_loop_clean_error _ _ _ _ _ _ _ _ _ _ Hnamed).
Qed.

(** With an empty [passenger_count] column, on the sample parsers and a
    store that accepts everything: one row is left and one is inserted. *)
Example scenario_with_passenger_count :
  clean_chunk sample_to_datetime sample_to_numeric scenario_chunk_full
    = Ok scenario_cleaned ∧
  snd (chunk_and_insert sample_to_datetime sample_to_numeric steady_db
         (NextChunk scenario_chunk_full EndOfFile) 5000 (init_world []))
    = Ok 1.
Proof. split; by vm_compute. Qed.

(** ** The schema mapping *)

(** C5: a vendor column labelled [VendorID] does not reach the record as
    [vendor_id]: the allow-list of line 90 has no [VendorID], so line 92
    drops the column, with the unknown column, before line 94 could rename
    it; the row is written without its vendor. *)
Theorem VendorID_column_is_dropped :
  clean_chunk sample_to_datetime sample_to_numeric (vendor_chunk "VendorID")
    = Ok (vendor_cleaned "VendorID") ∧
  schema_map (vendor_cleaned "VendorID") (vendor_cleaned "VendorID") = mkFrame trip_cols [cleaned_trip 10] ∧
  ("vendor_id" ∉ columns (schema_map (vendor_cleaned "VendorID") (vendor_cleaned "VendorID"))) ∧
  table (fst (chunk_and_insert sample_to_datetime sample_to_numeric steady_db
                (NextChunk (vendor_chunk "VendorID") EndOfFile) 5000 (init_world [])))
    = [cleaned_trip 10].
Proof.
  split; [by vm_compute|]. split; [by vm_compute|]. split; [|by vm_compute].
  apply (bool_decide_unpack _). by vm_compute.
Qed.

(** Under the label [vendorid] the same column is kept and renamed. *)
Example vendorid_column_is_renamed :
  clean_chunk sample_to_datetime sample_to_numeric (vendor_chunk "vendorid")
    = Ok (vendor_cleaned "vendorid") ∧
  schema_map (vendor_cleaned "vendorid") (vendor_cleaned "vendorid")
    = mkFrame ("vendor_id" :: trip_cols) [int 2 :: cleaned_trip 10].
Proof. split; by vm_compute. Qed.

(** Line 96 on a row with two missing cells: the missing tip, in a
    float64 column, is sent as NaN; the missing flag, in a column of text,
    is sent as [None], also when no row with a flag is left. *)
Example missing_cells_in_the_record :
  convert_types sample_to_datetime sample_to_numeric sparse_chunk = sparse_typed ∧
  clean_chunk sample_to_datetime sample_to_numeric sparse_chunk = Ok sparse_cleaned ∧
  rows (schema_map sparse_typed sparse_cleaned) = [cleaned_trip 10 ++ [VNaN; VNone]] ∧
  table (fst (chunk_and_insert sample_to_datetime sample_to_numeric steady_db
                (NextChunk sparse_chunk EndOfFile) 5000 (init_world [])))
    = [cleaned_trip 10 ++ [VNaN; VNone]].
Proof. repeat split; by vm_compute. Qed.

(** ** The loader *)

Lemma total_inserted_is_committed_witness :
  chunk_and_insert sample_to_datetime sample_to_numeric flaky_db two_chunks 1
      (init_world [])
    = (flaky_world, Ok 2) ∧
  table flaky_world = [] ++ concat (committed_batches (trace flaky_world)) ∧
  Forall (accepted flaky_db) (trace flaky_world) ∧
  ∀ total, Ok 2 = Ok total →
    total = sum_list_with length (committed_batches (trace flaky_world)) ∧
    length (table flaky_world) = length ([] : list (list value)) + total.
Proof.
  split; [by vm_compute|].
  apply (total_inserted_is_committed sample_to_datetime sample_to_numeric
           flaky_db two_chunks 1 []).
  by vm_compute.
Defined.

Lemma empty_cleaned_chunk_is_skipped_witness :
  clean_chunk sample_to_datetime sample_to_numeric bad_fare_chunk
    = Ok (mkFrame trip_cols []) ∧
  rows (mkFrame trip_cols []) = [] ∧
  chunk_loop sample_to_datetime sample_to_numeric steady_db 5000 0 0
      (NextChunk bad_fare_chunk one_chunk) (init_world [])
    = (skipped_world, Ok 1) ∧
  ∃ tr,
    trace skipped_world = [] ++ EvPrint (LogSkip 0 1) :: tr ∧
    (∀ e, e ∈ tr → event_chunk e ≠ Some 0) ∧
    chunk_loop sample_to_datetime sample_to_numeric steady_db 5000 1 0 one_chunk
        (mkWorld [] [] [] false ([] ++ [EvPrint (LogSkip 0 1)]))
      = (skipped_world, Ok 1) ∧
    table skipped_world = [] ++ concat (committed_batches tr) ∧
    (∀ t, Ok 1 = Ok t → t = 0 + sum_list_with length (committed_batches tr)) ∧
    (one_chunk = EndOfFile → Ok 1 = Ok 0 ∧ tr = []) ∧
    (∀ next rest' cleaned',
       one_chunk = NextChunk next rest' →
       clean_chunk sample_to_datetime sample_to_numeric next = Ok cleaned' →
       rows cleaned' ≠ [] → connect_ok steady_db 1 = true →
       ∃ tr', tr = EvConnect 1 :: tr').
Proof.
  split; [by vm_compute|]. split; [done|]. split; [by vm_compute|].
  apply (empty_cleaned_chunk_is_skipped sample_to_datetime sample_to_numeric
           steady_db 5000 0 0 bad_fare_chunk (mkFrame trip_cols []) one_chunk
           (init_world []) skipped_world (Ok 1)).
  - by vm_compute.
  - done.
  - by vm_compute.
Defined.

Lemma failed_sub_batch_ends_chunk_witness :
  three_trips_cleaned = convert_types sample_to_datetime sample_to_numeric three_trips ∧
  clean_chunk sample_to_datetime sample_to_numeric three_trips
    = Ok three_trips_cleaned ∧
  rows three_trips_cleaned ≠ [] ∧
  connect_ok flaky_db 0 = true ∧
  range_offsets (length (chunk_records three_trips_cleaned three_trips_cleaned)) 1
    = Ok ([0] ++ 1 :: [2]) ∧
  (∀ k, k ∈ [0] →
     batch_accepted flaky_db 0 (chunk_keys three_trips_cleaned)
       (chunk_records three_trips_cleaned three_trips_cleaned) (Z.to_nat 1) k = true) ∧
  batch_accepted flaky_db 0 (chunk_keys three_trips_cleaned)
    (chunk_records three_trips_cleaned three_trips_cleaned) (Z.to_nat 1) 1 = false ∧
  ∃ w' tr committed,
    load_chunk flaky_db 1 0 three_trips_cleaned three_trips_cleaned (init_world [])
      = (w', Ok committed) ∧
    committed = 1 ∧
    table w' = [cleaned_trip 10] ∧
    pending w' = [] ∧
    tr = [EvConnect 0;
          EvExecute 0 0 [cleaned_trip 10]; EvCommit 0 0 [cleaned_trip 10];
          EvExecute 0 1 [cleaned_trip 20];
          EvPrint (LogInsertFailed 0 DatabaseError); EvRollback 0] ∧
    ¬ attempted tr 0 2 ∧
    chunk_loop sample_to_datetime sample_to_numeric flaky_db 1 0 0
        (NextChunk three_trips EndOfFile) (init_world [])
      = chunk_loop sample_to_datetime sample_to_numeric flaky_db 1 1 (0 + committed)
          EndOfFile
          (mkWorld (table w') (pending w') (open_conns w') (tmpfile w')
             (trace w' ++ [EvPrint (LogChunk 0 3 3 committed)])).
Proof.
  assert (Htyped : three_trips_cleaned
            = convert_types sample_to_datetime sample_to_numeric three_trips)
    by by vm_compute.
  assert (Hclean : clean_chunk sample_to_datetime sample_to_numeric three_trips
            = Ok three_trips_cleaned) by by vm_compute.
  assert (Hrows : rows three_trips_cleaned ≠ []) by done.
  assert (Hconn : connect_ok flaky_db 0 = true) by done.
  assert (Hrange : range_offsets
                     (length (chunk_records three_trips_cleaned three_trips_cleaned)) 1
            = Ok ([0] ++ 1 :: [2])) by by vm_compute.
  assert (Hdone : ∀ k, k ∈ [0] →
            batch_accepted flaky_db 0 (chunk_keys three_trips_cleaned)
              (chunk_records three_trips_cleaned three_trips_cleaned) (Z.to_nat 1) k
            = true).
  { intros k ->%list_elem_of_singleton. by vm_compute. }
  assert (Hj : batch_accepted flaky_db 0 (chunk_keys three_trips_cleaned)
            (chunk_records three_trips_cleaned three_trips_cleaned) (Z.to_nat 1) 1
            = false)
    by by vm_compute.
  repeat (split; [done|]).
  destruct (failed_sub_batch_ends_chunk sample_to_datetime sample_to_numeric
              flaky_db 1 0 0 three_trips three_trips_cleaned three_trips_cleaned
              EndOfFile (init_world []) [0] 1 [2]
              Htyped Hclean Hrows Hconn Hrange Hdone Hj)
    as (w' & tr & committed & Hload & Hc & Htbl & Hpend & Htr & Htrdef & Hnot & Hloop).
  exists w', tr, committed.
  split; [done|]. split; [by rewrite Hc|]. split; [by rewrite Htbl|].
  split; [by rewrite Hpend|].
  split; [by rewrite Htrdef|]. split; [apply Hnot; by left|]. exact Hloop.
Defined.

(** When the commit of a sub-batch is refused and the rollback raises, the
    rows of that sub-batch stay pending on the connection of the chunk,
    which stays open. *)
Example failed_rollback_leaves_rows_pending :
  load_chunk stuck_db 1 0 three_trips_cleaned three_trips_cleaned (init_world [])
    = (mkWorld [cleaned_trip 10] [cleaned_trip 20] [0] false
         [EvConnect 0;
          EvExecute 0 0 [cleaned_trip 10]; EvCommit 0 0 [cleaned_trip 10];
          EvExecute 0 1 [cleaned_trip 20];
          EvPrint (LogInsertFailed 0 DatabaseError); EvRollback 0],
       Ok 1).
Proof. by vm_compute. Qed.

(** C1 as stated fails: the store refuses the second of three sub-batches
    of a chunk and would take the third, yet the third is never sent and
    its row is not in the table. *)
Lemma later_sub_batch_not_attempted :
  chunk_and_insert sample_to_datetime sample_to_numeric flaky_db two_chunks 1
      (init_world [])
    = (flaky_world, Ok 2) ∧
  length (chunk_records three_trips_cleaned three_trips_cleaned) = 3 ∧
  execute_ok flaky_db 0 2 [cleaned_trip 30] && commit_ok flaky_db 0 2 = true ∧
  (cleaned_trip 30 ∉ table flaky_world) ∧
  ¬ all_sub_batches_attempted (trace flaky_world) 0 3 1.
Proof.
  split; [by vm_compute|]. split; [by vm_compute|]. split; [done|]. split.
  - intros Hin. absent_from_list Hin.
  - intros Hall. destruct (Hall [0; 1; 2] 2) as [vals Hin].
    + by vm_compute.
    + set_solver.
    + absent_from_list Hin.
Qed.

(** C9: after the refused sub-batch the connection of the first chunk is
    still open when the second chunk opens its own, and when the run ends;
    the connection of the second chunk, whose sub-batches all went
    through, is closed. *)
Theorem failed_chunk_leaves_connection_open :
  chunk_and_insert sample_to_datetime sample_to_numeric flaky_db two_chunks 1
      (init_world [])
    = (flaky_world, Ok 2) ∧
  open_conns flaky_world = [0] ∧
  ¬ closed_before_next (trace flaky_world) 0.
Proof.
  split; [by vm_compute|]. split; [done|].
  intros Hclosed.
  specialize (Hclosed
    [EvConnect 0;
     EvExecute 0 0 [cleaned_trip 10]; EvCommit 0 0 [cleaned_trip 10];
     EvExecute 0 1 [cleaned_trip 20];
     EvPrint (LogInsertFailed 0 DatabaseError); EvRollback 0;
     EvPrint (LogChunk 0 3 3 1)]
    [EvExecute 1 0 [cleaned_trip 40]; EvCommit 1 0 [cleaned_trip 40];
     EvClose 1;
     EvPrint (LogChunk 1 1 1 1);
     EvPrint (LogTotal 2)]
    eq_refl).
  absent_from_list Hclosed.
Qed.

(** ** The verifier *)



(** ** Further properties on concrete inputs *)

Lemma cleaning_keeps_order_and_other_cells_witness :
  clean_chunk sample_to_datetime sample_to_numeric scenario_chunk_full
    = Ok scenario_cleaned ∧
  columns scenario_cleaned = columns scenario_chunk_full ∧
  ∃ kept, kept `sublist_of` rows scenario_chunk_full ∧
          Forall2 (retyped (columns scenario_chunk_full)) kept (rows scenario_cleaned).
Proof.
  split; [by vm_compute|].
  apply (cleaning_keeps_order_and_other_cells sample_to_datetime sample_to_numeric).
  by vm_compute.
Defined.

Lemma cleaning_returns_on_required_columns_witness :
  (∀ c, c ∈ required_cols → c ∈ columns three_trips) ∧
  ∃ cleaned, clean_chunk sample_to_datetime sample_to_numeric three_trips = Ok cleaned.
Proof.
  assert (Hreq : ∀ c, c ∈ required_cols → c ∈ columns three_trips).
  { intros c Hc. unfold required_cols in Hc.
    repeat (apply elem_of_cons in Hc as [->|Hc];
            [apply (bool_decide_unpack _); by vm_compute|]).
    by apply elem_of_nil in Hc. }
  split; [done|].
  exact (cleaning_returns_on_required_columns sample_to_datetime sample_to_numeric
           three_trips Hreq).
Defined.

Lemma valid_rows_are_kept_witness :
  clean_chunk sample_to_datetime sample_to_numeric three_trips
    = Ok three_trips_cleaned ∧
  cleaned_trip 20 ∈ rows (convert_types sample_to_datetime sample_to_numeric three_trips) ∧
  cleaned_row_invariant checked_cols
    (convert_types sample_to_datetime sample_to_numeric three_trips) (cleaned_trip 20) ∧
  cleaned_trip 20 ∈ rows three_trips_cleaned.
Proof.
  assert (Hclean : clean_chunk sample_to_datetime sample_to_numeric three_trips
            = Ok three_trips_cleaned) by by vm_compute.
  assert (Hrow : cleaned_trip 20 ∈
            rows (convert_types sample_to_datetime sample_to_numeric three_trips)).
  { vm_compute. right. left. }
  assert (Hvalid : cleaned_row_invariant checked_cols
            (convert_types sample_to_datetime sample_to_numeric three_trips)
            (cleaned_trip 20)).
  { split; [by eexists|]. split; [by eexists|].
    intros c Hc. unfold checked_cols in Hc.
    repeat (apply elem_of_cons in Hc as [->|Hc];
            [right; right; eexists; split; [by vm_compute | by vm_compute]|]).
    by apply elem_of_nil in Hc. }
  repeat (split; [done|]).
  exact (valid_rows_are_kept sample_to_datetime sample_to_numeric three_trips
           three_trips_cleaned (cleaned_trip 20) Hclean Hrow Hvalid).
Defined.

Lemma cleaning_is_idempotent_witness :
  (∀ s t, sample_to_datetime s (VTime t) = Some t) ∧
  (∀ s x, sample_to_numeric s (VNum x) = Some x) ∧
  (∀ s, sample_to_numeric s VNaN = None) ∧
  clean_chunk sample_to_datetime sample_to_numeric scenario_chunk_full
    = Ok scenario_cleaned ∧
  clean_chunk sample_to_datetime sample_to_numeric scenario_cleaned
    = Ok scenario_cleaned.
Proof.
  split; [done|]. split; [done|]. split; [done|]. split; [by vm_compute|].
  apply (cleaning_is_idempotent sample_to_datetime sample_to_numeric
           scenario_chunk_full scenario_cleaned); [done..|].
  by vm_compute.
Defined.

Lemma schema_map_columns_canonical_witness :
  "vendor_id" ∈ columns (schema_map (vendor_cleaned "vendorid") (vendor_cleaned "vendorid")) ∧
  "vendor_id" ∈ canonical_cols.
Proof.
  assert (Hin : "vendor_id" ∈ columns (schema_map (vendor_cleaned "vendorid") (vendor_cleaned "vendorid"))).
  { apply (bool_decide_unpack _). by vm_compute. }
  split; [done|].
  exact (schema_map_columns_canonical (vendor_cleaned "vendorid") (vendor_cleaned "vendorid")
           "vendor_id" Hin).
Defined.

Lemma schema_map_vendor_id_origin_witness :
  "vendor_id" ∈ columns (schema_map (vendor_cleaned "vendorid") (vendor_cleaned "vendorid")) ∧
  ("vendor_id" ∈ columns (vendor_cleaned "vendorid") ∨
   "vendorid" ∈ columns (vendor_cleaned "vendorid")).
Proof.
  assert (Hin : "vendor_id" ∈ columns (schema_map (vendor_cleaned "vendorid") (vendor_cleaned "vendorid"))).
  { apply (bool_decide_unpack _). by vm_compute. }
  split; [done|].
  exact (schema_map_vendor_id_origin (vendor_cleaned "vendorid") (vendor_cleaned "vendorid")
           Hin).
Defined.

Lemma records_are_the_mapped_rows_witness :
  NoDup (chunk_keys three_trips_cleaned) ∧
  tuple_of (chunk_keys three_trips_cleaned) <$> chunk_records three_trips_cleaned three_trips_cleaned
    = rows (schema_map three_trips_cleaned three_trips_cleaned).
Proof.
  assert (Hnd : NoDup (chunk_keys three_trips_cleaned)).
  { apply (bool_decide_unpack _). by vm_compute. }
  split; [done|].
  exact (records_are_the_mapped_rows three_trips_cleaned three_trips_cleaned Hnd).
Defined.

Lemma sub_batches_partition_records_witness :
  (0 < 2)%Z ∧
  ∃ offsets,
    range_offsets (length (chunk_records three_trips_cleaned three_trips_cleaned)) 2 = Ok offsets ∧
    concat (batch_values (chunk_keys three_trips_cleaned)
              (chunk_records three_trips_cleaned three_trips_cleaned) (Z.to_nat 2) <$> offsets)
      = tuple_of (chunk_keys three_trips_cleaned) <$> chunk_records three_trips_cleaned three_trips_cleaned ∧
    ∀ j, j ∈ offsets →
      0 < length (batch_values (chunk_keys three_trips_cleaned)
                    (chunk_records three_trips_cleaned three_trips_cleaned) (Z.to_nat 2) j)
        ≤ Z.to_nat 2.
Proof.
  split; [lia|].
  apply (sub_batches_partition_records (chunk_keys three_trips_cleaned)
           (chunk_records three_trips_cleaned three_trips_cleaned) 2).
  lia.
Defined.

Lemma accepted_chunk_is_fully_inserted_witness :
  (0 < 2)%Z ∧
  connect_ok steady_db 0 = true ∧
  (∀ j vals, execute_ok steady_db 0 j vals = true) ∧
  (∀ j, commit_ok steady_db 0 j = true) ∧
  ∃ w', load_chunk steady_db 2 0 three_trips_cleaned three_trips_cleaned (init_world [])
          = (w', Ok (length (rows three_trips_cleaned))) ∧
        table w' =
          table (init_world []) ++
          (tuple_of (chunk_keys three_trips_cleaned)
             <$> chunk_records three_trips_cleaned three_trips_cleaned) ∧
        pending w' = [] ∧
        (0 ∉ open_conns w').
Proof.
  split; [lia|]. repeat (split; [done|]).
  apply (accepted_chunk_is_fully_inserted steady_db 2 0 three_trips_cleaned
           three_trips_cleaned
           (init_world [])); [lia|done..].
Defined.

Lemma nonpositive_batch_size_inserts_nothing_witness :
  (0 ≤ 0)%Z ∧
  connect_ok steady_db 0 = true ∧
  ∃ w', load_chunk steady_db 0 0 three_trips_cleaned three_trips_cleaned (init_world []) = (w', Ok 0) ∧
        table w' = table (init_world []) ∧
        trace w' =
          trace (init_world []) ++
          (if decide (0 = 0)%Z
           then [EvConnect 0; EvPrint (LogInsertFailed 0 ValueError); EvRollback 0]
           else [EvConnect 0; EvClose 0]) ∧
        (0 ∈ open_conns w' ↔ 0%Z = 0%Z).
Proof.
  split; [lia|]. split; [done|].
  apply (nonpositive_batch_size_inserts_nothing steady_db 0 0 three_trips_cleaned
           three_trips_cleaned
           (init_world [])); [lia|done].
Defined.

Lemma failed_connection_aborts_run_witness :
  clean_chunk sample_to_datetime sample_to_numeric three_trips
    = Ok three_trips_cleaned ∧
  rows three_trips_cleaned ≠ [] ∧
  connect_ok down_db 0 = false ∧
  chunk_loop sample_to_datetime sample_to_numeric down_db 5000 0 0
      (NextChunk three_trips one_chunk) (init_world [])
    = (init_world [], Err DatabaseError).
Proof.
  split; [by vm_compute|]. split; [done|]. split; [done|].
  apply (failed_connection_aborts_run sample_to_datetime sample_to_numeric down_db
           5000 0 0 three_trips three_trips_cleaned one_chunk (init_world []));
    [by vm_compute|done..].
Defined.

Lemma total_inserted_at_most_rows_read_witness :
  chunk_and_insert sample_to_datetime sample_to_numeric flaky_db two_chunks 1
      (init_world [])
    = (flaky_world, Ok 2) ∧
  2 ≤ rows_read two_chunks.
Proof.
  split; [by vm_compute|].
  apply (total_inserted_at_most_rows_read sample_to_datetime sample_to_numeric
           flaky_db two_chunks 1 (init_world []) flaky_world 2).
  by vm_compute.
Defined.


Lemma verified_count_is_initial_plus_inserted_witness :
  load sample_to_datetime sample_to_numeric steady_db
      (mkArgs (Some one_chunk) false 5000) (init_world [cleaned_trip 5])
    = (mkWorld (cleaned_trip 5 :: table one_chunk_world) [] [] false
         (trace one_chunk_world), Ok 1) ∧
  verify_connect_ok steady_db = true ∧
  count_query_ok steady_db = true ∧
  sample_query steady_db (cleaned_trip 5 :: table one_chunk_world) = Some [] ∧
  ∃ w2,
    main sample_to_datetime sample_to_numeric steady_db
        (mkArgs (Some one_chunk) false 5000) (init_world [cleaned_trip 5])
      = (w2, Ok ()) ∧
    table w2 = cleaned_trip 5 :: table one_chunk_world ∧
    trace w2 =
      trace one_chunk_world ++
      [EvVerifyConnect; EvVerifyClose;
       EvPrint (LogVerifyCount (length [cleaned_trip 5] + 1));
       EvPrint (LogVerifySample [])] ++ [].
Proof.
  split; [by vm_compute|]. repeat (split; [done|]).
  apply (verified_count_is_initial_plus_inserted sample_to_datetime sample_to_numeric
           steady_db (mkArgs (Some one_chunk) false 5000) (init_world [cleaned_trip 5])
           (mkWorld (cleaned_trip 5 :: table one_chunk_world) [] [] false
              (trace one_chunk_world)) 1 []); [by vm_compute|done..].
Defined.

Lemma failed_verifier_connection_exits_witness :
  load sample_to_datetime sample_to_numeric no_verify_db
      (mkArgs (Some one_chunk) false 5000) (init_world [])
    = (one_chunk_world, Ok 1) ∧
  verify_connect_ok no_verify_db = false ∧
  ∃ w2,
    main sample_to_datetime sample_to_numeric no_verify_db
        (mkArgs (Some one_chunk) false 5000) (init_world [])
      = (w2, Err (SystemExit 1)) ∧
    exit_status_of
      (snd (main sample_to_datetime sample_to_numeric no_verify_db
              (mkArgs (Some one_chunk) false 5000) (init_world []))) = 1%Z ∧
    table w2 = table one_chunk_world ∧
    trace w2 = trace one_chunk_world ++ [EvPrint LogConnectionFailed] ++ [].
Proof.
  split; [by vm_compute|]. split; [done|].
  apply (failed_verifier_connection_exits sample_to_datetime sample_to_numeric
           no_verify_db (mkArgs (Some one_chunk) false 5000) (init_world [])
           one_chunk_world 1); [by vm_compute|done].
Defined.

(** A run that downloads its file and cannot remove it afterwards ends
    normally and leaves the staging file. *)
Example failed_removal_leaves_staging_file :
  snd (main sample_to_datetime sample_to_numeric sticky_db
         (mkArgs None false 5000) (init_world [])) = Ok () ∧
  tmpfile (fst (main sample_to_datetime sample_to_numeric sticky_db
                  (mkArgs None false 5000) (init_world []))) = true.
Proof. split; by vm_compute. Qed.

Lemma lpep_column_duplicates_a_key_witness :
  "lpep_pickup_datetime" ∈ ["lpep_pickup_datetime"; "lpep_dropoff_datetime"] ∧
  clean_chunk sample_to_datetime sample_to_numeric lpep_chunk = Ok lpep_cleaned ∧
  "lpep_pickup_datetime" ∈ columns lpep_chunk ∧
  ¬ NoDup (chunk_keys lpep_cleaned).
Proof.
  assert (Hin : "lpep_pickup_datetime" ∈ columns lpep_chunk).
  { apply (bool_decide_unpack _). by vm_compute. }
  split; [by left|]. split; [by vm_compute|]. split; [done|].
  apply (lpep_column_duplicates_a_key sample_to_datetime sample_to_numeric
           lpep_chunk lpep_cleaned "lpep_pickup_datetime");
    [by left | by vm_compute | done].
Defined.

(** * The schema deployer: properties *)

Module DeployFacts.
Import Deploy.

(** ** Splitting and stripping *)

Lemma lstrip_head l a l' : lstrip l = a :: l' → is_space a = false.
Proof.
  induction l as [|b l IH]; [done|]. cbn [lstrip].
  destruct (is_space b) eqn:Hb; [done|]. by intros [= <- _].
Qed.

Lemma lstrip_suffix l : ∃ blanks, l = blanks ++ lstrip l.
Proof.
  induction l as [|b l [blanks IH]]; [by exists []|]. cbn [lstrip].
  destruct (is_space b).
  - exists (b :: blanks). cbn. by f_equal.
  - by exists [].
Qed.

Lemma strip_chars s :
  String.list_ascii_of_string (strip s) =
    reverse (lstrip (reverse (lstrip (String.list_ascii_of_string s)))).
Proof. unfold strip. apply String.list_ascii_of_string_of_list_ascii. Qed.

Lemma strip_subset s a :
  a ∈ String.list_ascii_of_string (strip s) → a ∈ String.list_ascii_of_string s.
Proof.
  rewrite strip_chars, elem_of_reverse. intros Ha.
  destruct (lstrip_suffix (String.list_ascii_of_string s)) as [b1 H1].
  destruct (lstrip_suffix (reverse (lstrip (String.list_ascii_of_string s))))
    as [b2 H2].
  rewrite H1. apply elem_of_app. right. apply elem_of_reverse.
  rewrite H2. apply elem_of_app. by right.
Qed.

Lemma strip_ends s :
  (∀ a l', String.list_ascii_of_string (strip s) = a :: l' → is_space a = false) ∧
  (∀ a l', String.list_ascii_of_string (strip s) = l' ++ [a] → is_space a = false).
Proof.
  rewrite strip_chars.
  set (x := lstrip (String.list_ascii_of_string s)).
  destruct (lstrip_suffix (reverse x)) as [blanks Hx].
  split.
  - intros a l' Hhead.
    assert (Hpre : x = (a :: l') ++ reverse blanks).
    { rewrite <- Hhead, <- reverse_app, <- Hx. by rewrite reverse_involutive. }
    by apply lstrip_head in Hpre.
  - intros a l' Hlast.
    apply (f_equal reverse) in Hlast.
    rewrite reverse_involutive, reverse_snoc in Hlast.
    by apply lstrip_head in Hlast.
Qed.

Lemma split_no_sep sep s piece :
  piece ∈ split sep s → sep ∉ String.list_ascii_of_string piece.
Proof.
  revert piece. induction s as [|a s IH]; intros piece; cbn [split].
  - intros ->%list_elem_of_singleton. apply not_elem_of_nil.
  - destruct (Ascii.eqb_spec a sep) as [->|Hne].
    + intros [->|Hin]%elem_of_cons; [apply not_elem_of_nil | by apply IH].
    + destruct (split sep s) as [|p ps].
      * intros ->%list_elem_of_singleton. cbn. rewrite not_elem_of_cons.
        split; [done | apply not_elem_of_nil].
      * intros [->|Hin]%elem_of_cons.
        -- cbn. rewrite not_elem_of_cons. split; [done|]. apply IH. by left.
        -- apply IH. by right.
Qed.

(** X19: the statements that the loop of lines 47 to 51 sends for a script
    are never empty, hold no [;] and have no blank character at either
    end. *)
Theorem statements_are_tidy ddl_sql s :
  s ∈ statements ddl_sql → tidy s.
Proof.
  unfold statements.
  intros [Hne (piece & -> & Hpiece)%list_elem_of_fmap]%list_elem_of_filter.
  unfold tidy. cbn zeta. split; [|split; [|apply strip_ends]].
  - intros Hnil. apply Hne.
    rewrite <- (String.string_of_list_ascii_of_string (strip piece)). by rewrite Hnil.
  - intros Hin%strip_subset. by apply split_no_sep in Hpiece.
Qed.

(** ** One application *)

Lemma sent_app cs1 cs2 : sent (cs1 ++ cs2) = sent cs1 ++ sent cs2.
Proof. unfold sent. apply omap_app. Qed.

Lemma until_refused_prefix ok l : until_refused ok l `prefix_of` l.
Proof.
  induction l as [|s l IH]; [done|]. cbn [until_refused].
  destruct (ok s); [by apply prefix_cons | apply prefix_cons, prefix_nil].
Qed.

Lemma run_statements_spec srv pieces st st' r :
  run_statements srv pieces st = (st', r) →
  versions st' = versions st ∧ staged st' = staged st ∧
  ∃ done, calls st' = calls st ++ (CallStatement <$> done) ∧
          done = until_refused (statement_ok srv)
                   (filter (λ s, s ≠ "") (strip <$> pieces)) ∧
          done `prefix_of` filter (λ s, s ≠ "") (strip <$> pieces) ∧
          (r = Ok () → done = filter (λ s, s ≠ "") (strip <$> pieces)).
Proof.
  revert st. induction pieces as [|piece pieces IH]; intros st; cbn [run_statements].
  - intros [= <- <-]. repeat split; try done. exists []. by rewrite app_nil_r.
  - rewrite fmap_cons, filter_cons.
    destruct (String.eqb_spec (strip piece) "") as [Hempty|Hne].
    + rewrite decide_False by (by intros ?). apply IH.
    + rewrite decide_True by done. cbn [until_refused].
      destruct (statement_ok srv (strip piece)).
      * intros (Hv & Hs & done & Hcalls & Hdone & Hpre & Hall)%IH.
        split; [done|]. split; [done|]. exists (strip piece :: done).
        split; [|split; [|split]].
        -- rewrite Hcalls. cbn. by rewrite <- app_assoc.
        -- by rewrite Hdone.
        -- by apply prefix_cons.
        -- intros Hr. by rewrite Hall.
      * intros [= <- <-]. split; [done|]. split; [done|].
        exists [strip piece]. split; [done|]. split; [done|]. split; [|done].
        apply prefix_cons, prefix_nil.
Qed.

(** What a transaction that went through leaves. *)
Lemma transaction_Ok srv version ddl_sql description st st' :
  transaction srv version ddl_sql description st = (st', Ok ()) →
  versions st' = versions st ∪ list_to_set (staged st ++ [version]) ∧
  staged st' = [] ∧
  calls st' =
    calls st ++ [CallStart] ++ (CallStatement <$> statements ddl_sql) ++
    [CallRecord version description; CallCommit].
Proof.
  unfold transaction. destruct (start_ok srv); cbn [negb]; [|done].
  destruct (run_statements srv _ _) as [st1 [[]|e]] eqn:Hrun; [|done].
  apply run_statements_spec in Hrun as (Hv & Hs & done & Hcalls & _ & _ & Hall).
  destruct (record_ok srv); cbn [negb]; [|done].
  destruct (commit_ok srv); [|done].
  intros [= <-]. unfold committed, log; cbn [versions staged calls].
  rewrite Hv, Hs, Hcalls, (Hall eq_refl). unfold log; cbn [versions staged calls].
  repeat split; try done. by rewrite <- !app_assoc.
Qed.

(** What a transaction that failed leaves. *)
Lemma transaction_Err srv version ddl_sql description st st' e :
  transaction srv version ddl_sql description st = (st', Err e) →
  versions st' = versions st ∧
  ∃ done rest, calls st' = calls st ++ [CallStart] ++ (CallStatement <$> done) ++ rest ∧
               done `prefix_of` statements ddl_sql ∧ sent rest = [] ∧
               done = (if start_ok srv
                       then until_refused (statement_ok srv) (statements ddl_sql)
                       else []).
Proof.
  unfold transaction. destruct (start_ok srv); cbn [negb].
  2:{ intros [= <- _]. split; [done|]. exists [], []. cbn.
      split; [done|]. split; [apply prefix_nil | done]. }
  destruct (run_statements srv _ _) as [st1 [[]|e1]] eqn:Hrun;
    apply run_statements_spec in Hrun as (Hv & Hs & done & Hcalls & Hdone & Hpre & _);
    unfold log in *; cbn [versions staged calls] in *.
  - destruct (record_ok srv); cbn [negb].
    + destruct (commit_ok srv); [done|]. intros [= <- _].
      unfold log; cbn [versions staged calls]. split; [done|].
      exists done, [CallRecord version description; CallCommit].
      rewrite Hcalls, <- !app_assoc. by repeat split.
    + intros [= <- _]. unfold log; cbn [versions staged calls]. split; [done|].
      exists done, [CallRecord version description].
      rewrite Hcalls, <- !app_assoc. by repeat split.
  - intros [= <- _]. split; [done|]. exists done, [].
    rewrite Hcalls, app_nil_r, <- !app_assoc. by repeat split.
Qed.

(** X20: a version that the ledger already holds is not applied again:
    [apply_version] prints that it skips it and returns False without
    opening a transaction or sending any statement of the script. *)
Theorem applied_version_is_skipped srv version ddl_sql description st :
  version ∈ versions st →
  ledger_ok srv = true →
  apply_version srv version ddl_sql description st =
    (mkState (versions st ∪ list_to_set (staged st)) []
       (calls st ++ [CallLedger; Print (LineSkipped version)]),
     Ok false).
Proof.
  intros Hin Hledger. unfold apply_version, applied_versions. rewrite Hledger.
  unfold committed, log; cbn [versions staged calls].
  rewrite decide_True by set_solver.
  by rewrite <- ?app_assoc.
Qed.

(** X21: on a connection with no open transaction, [apply_version] changes
    the ledger in one way only: when it returns True the version has been
    added to it; when it returns False or raises, the ledger holds what it
    held. *)
Theorem ledger_changes_only_on_success srv version ddl_sql description st st' r :
  staged st = [] →
  apply_version srv version ddl_sql description st = (st', r) →
  versions st' =
    match r with
    | Ok true => versions st ∪ {[version]}
    | _ => versions st
    end.
Proof.
  intros Hstaged. unfold apply_version, applied_versions.
  destruct (ledger_ok srv); [|by intros [= <- <-]].
  unfold committed, log; cbn [versions staged calls]. rewrite Hstaged.
  rewrite list_to_set_nil, union_empty_r_L.
  destruct (decide (version ∈ versions st)); [by intros [= <- <-]|].
  destruct (transaction srv _ _ _ _) as [st1 [[]|e]] eqn:Htx.
  - apply transaction_Ok in Htx as (Hv & _). intros [= <- <-].
    unfold log in *; cbn [versions staged calls] in *. rewrite Hv. cbn. by rewrite union_empty_r_L.
  - apply transaction_Err in Htx as (Hv & _). intros [= <- <-].
    unfold rollback. unfold log; cbn [versions staged calls].
    by destruct (rollback_ok srv).
Qed.


(** X23: applying is idempotent: after an application that returned True,
    applying the same version again, with any script, returns False, sends
    no statement and leaves the ledger as it is. *)
Theorem second_application_is_skipped srv version ddl_sql description
    ddl_sql' description' st st1 :
  staged st = [] →
  ledger_ok srv = true →
  apply_version srv version ddl_sql description st = (st1, Ok true) →
  ∃ st2, apply_version srv version ddl_sql' description' st1 = (st2, Ok false) ∧
         versions st2 = versions st1 ∧
         sent (calls st2) = sent (calls st1).
Proof.
  intros Hstaged Hledger Hfirst.
  assert (Hst1 : version ∈ versions st1 ∧ staged st1 = []).
  { revert Hfirst. unfold apply_version, applied_versions. rewrite Hledger.
    unfold committed, log; cbn [versions staged calls]. rewrite Hstaged.
    destruct (decide _); [done|].
    destruct (transaction srv _ _ _ _) as [st' [[]|e]] eqn:Htx; [|done].
    apply transaction_Ok in Htx as (Hv & Hs & _). intros [= <-].
    unfold log in *; cbn [versions staged calls] in *. rewrite Hv. split; [|done].
    apply elem_of_union. right. cbn. apply elem_of_union. left. by apply elem_of_singleton. }
  destruct Hst1 as [Hin Hnone].
  eexists. split.
  - unfold apply_version, applied_versions. rewrite Hledger.
    unfold committed, log; cbn [versions staged calls].
    rewrite decide_True by set_solver. reflexivity.
  - unfold log; cbn [versions staged calls]. rewrite Hnone, list_to_set_nil, union_empty_r_L.
    split; [done|]. rewrite !sent_app. cbn. by rewrite !app_nil_r.
Qed.

Lemma sent_fmap_statement l : sent (CallStatement <$> l) = l.
Proof. induction l as [|s l IH]; [done|]. cbn. by f_equal. Qed.

(** The ledger after one application on a connection with no open
    transaction, and what a changed ledger tells. *)
Lemma apply_version_ledger srv version ddl_sql description st st' r :
  staged st = [] →
  apply_version srv version ddl_sql description st = (st', r) →
  versions st' = versions st ∨
  (r = Ok true ∧ versions st' = versions st ∪ {[version]} ∧
   sent (calls st') = sent (calls st) ++ statements ddl_sql).
Proof.
  intros Hstaged. unfold apply_version, applied_versions.
  destruct (ledger_ok srv); [|intros [= <- <-]; by left].
  unfold committed, log; cbn [versions staged calls]. rewrite Hstaged.
  rewrite list_to_set_nil, union_empty_r_L.
  destruct (decide (version ∈ versions st)); [intros [= <- <-]; by left|].
  destruct (transaction srv _ _ _ _) as [st1 [[]|e]] eqn:Htx.
  - apply transaction_Ok in Htx as (Hv & _ & Hcalls). intros [= <- <-]. right.
    cbn [versions staged calls] in *. split; [done|]. split.
    + rewrite Hv. cbn. by rewrite union_empty_r_L.
    + rewrite Hcalls, !sent_app, sent_fmap_statement. cbn. by rewrite !app_nil_r.
  - apply transaction_Err in Htx as (Hv & _). intros [= <- <-]. left.
    unfold rollback, log. cbn [versions staged calls] in *.
    by destruct (rollback_ok srv).
Qed.

(** X24: whatever was inserted in a transaction left open on the
    connection is committed by [apply_version], whatever it returns
    afterwards: reading the ledger commits first (line 32). *)
Theorem open_transaction_is_committed srv version ddl_sql description st st' r v :
  ledger_ok srv = true →
  v ∈ staged st →
  apply_version srv version ddl_sql description st = (st', r) →
  v ∈ versions st'.
Proof.
  intros Hledger Hv. unfold apply_version, applied_versions. rewrite Hledger.
  unfold committed, log; cbn [versions staged calls].
  assert (Hin : v ∈ versions st ∪ list_to_set (staged st)).
  { apply elem_of_union. right. by apply elem_of_list_to_set. }
  destruct (decide _); [by intros [= <- <-]|].
  destruct (transaction srv _ _ _ _) as [st1 [[]|e]] eqn:Htx.
  - apply transaction_Ok in Htx as (Hvs & _). intros [= <- <-].
    cbn [versions staged calls] in *. rewrite Hvs. apply elem_of_union. by left.
  - apply transaction_Err in Htx as (Hvs & _). intros [= <- <-].
    unfold rollback, log. cbn [versions staged calls] in *.
    destruct (rollback_ok srv); cbn [versions]; by rewrite Hvs.
Qed.

(** X25: [main] drops the result of [apply_version]: once the connection
    is made and the ledger can be read, the run returns normally and ends
    by closing the connection, also when a statement, the row for the
    ledger or the commit failed. *)
Theorem main_returns_normally srv version description st :
  connect_ok srv = true →
  ledger_ok srv = true →
  ∃ st', main srv version description st = (st', Ok ()) ∧
         last (calls st') = Some CallCloseConn.
Proof.
  intros Hconnect Hledger. unfold main. rewrite Hconnect. cbn [negb].
  destruct (String.eqb version "v1_add_summary_table").
  - unfold apply_version, applied_versions. rewrite Hledger.
    destruct (decide _).
    { eexists. split; [done|]. unfold log. cbn [calls]. apply last_snoc. }
    destruct (transaction srv _ _ _ _) as [st1 [[]|e]];
      (eexists; split; [done|]); unfold log at 1; cbn [calls]; apply last_snoc.
  - eexists. split; [done|]. unfold log. cbn [calls]. apply last_snoc.
Qed.

(** X26: a run of [main] changes the ledger only for the version whose
    script it holds, and then by that version alone, after it has sent
    every statement of that script. *)
Theorem main_changes_ledger_for_known_version srv version description st st' r :
  main srv version description st = (st', r) →
  versions st' ≠ versions st →
  version = "v1_add_summary_table" ∧ r = Ok () ∧
  versions st' = versions st ∪ {[version]} ∧
  sent (calls st') = sent (calls st) ++ statements summary_ddl.
Proof.
  unfold main. destruct (connect_ok srv); cbn [negb]; [|by intros [= <- <-]].
  destruct (String.eqb_spec version "v1_add_summary_table") as [Hknown|Hunknown];
    [|by intros [= <- <-]].
  destruct (apply_version srv _ _ _ _) as [st1 r1] eqn:Happly.
  apply apply_version_ledger in Happly as [Hsame|(-> & Hv & Hsent)]; [| |done].
  - cbn [versions] in Hsame. destruct r1 as [b|e]; intros [= <- <-];
      unfold log; cbn [versions]; by rewrite Hsame.
  - intros [= <- <-] _. unfold log. cbn [versions calls] in *.
    split; [done|]. split; [done|]. split; [done|].
    rewrite sent_app, Hsent. cbn. by rewrite app_nil_r.
Qed.

(** ** The deployer on concrete inputs *)

Lemma statements_are_tidy_witness :
  "CREATE C" ∈ statements three_statements ∧ tidy "CREATE C".
Proof.
  assert (Hin : "CREATE C" ∈ statements three_statements).
  { apply (bool_decide_unpack _). by vm_compute. }
  split; [done|]. exact (statements_are_tidy three_statements "CREATE C" Hin).
Defined.

Lemma applied_version_is_skipped_witness :
  "v1" ∈ versions applied_once ∧
  ledger_ok willing = true ∧
  apply_version willing "v1" "DROP A" "again" applied_once =
    (mkState (versions applied_once ∪ list_to_set (staged applied_once)) []
       (calls applied_once ++ [CallLedger; Print (LineSkipped "v1")]),
     Ok false).
Proof.
  assert (Hin : "v1" ∈ versions applied_once).
  { apply (bool_decide_unpack _). by vm_compute. }
  split; [done|]. split; [done|].
  exact (applied_version_is_skipped willing "v1" "DROP A" "again" applied_once
           Hin eq_refl).
Defined.

Lemma ledger_changes_only_on_success_witness :
  staged (fresh ∅) = [] ∧
  apply_version (refusing "CREATE B") "v1" three_statements "first" (fresh ∅) =
    (refused_once, Ok false) ∧
  versions refused_once = versions (fresh ∅).
Proof.
  split; [done|]. split; [by vm_compute|].
  apply (ledger_changes_only_on_success (refusing "CREATE B") "v1"
           three_statements "first" (fresh ∅) refused_once (Ok false));
    [done | by vm_compute].
Defined.


Lemma second_application_is_skipped_witness :
  staged (fresh ∅) = [] ∧
  ledger_ok willing = true ∧
  apply_version willing "v1" three_statements "first" (fresh ∅) =
    (applied_once, Ok true) ∧
  ∃ st2, apply_version willing "v1" "DROP A" "again" applied_once = (st2, Ok false) ∧
         versions st2 = versions applied_once ∧
         sent (calls st2) = sent (calls applied_once).
Proof.
  split; [done|]. split; [done|]. split; [by vm_compute|].
  apply (second_application_is_skipped willing "v1" three_statements "first"
           "DROP A" "again" (fresh ∅) applied_once); [done | done | by vm_compute].
Defined.

Lemma open_transaction_is_committed_witness :
  ledger_ok (refusing "CREATE B") = true ∧
  "v0" ∈ staged open_transaction ∧
  "v0" ∈ versions
    (apply_version (refusing "CREATE B") "v1" three_statements "first"
       open_transaction).1.
Proof.
  split; [done|]. split; [by left|].
  apply (open_transaction_is_committed (refusing "CREATE B") "v1" three_statements
           "first" open_transaction _ (Ok false) "v0"); [done | by left | by vm_compute].
Defined.

Lemma main_returns_normally_witness :
  connect_ok (refusing "CREATE B") = true ∧
  ledger_ok (refusing "CREATE B") = true ∧
  ∃ st', main (refusing "CREATE B") "v1_add_summary_table" "summary" (fresh ∅)
           = (st', Ok ()) ∧
         last (calls st') = Some CallCloseConn.
Proof.
  split; [done|]. split; [done|].
  exact (main_returns_normally (refusing "CREATE B") "v1_add_summary_table"
           "summary" (fresh ∅) eq_refl eq_refl).
Defined.

Lemma main_changes_ledger_for_known_version_witness :
  main willing "v1_add_summary_table" "summary" (fresh ∅) = (summary_applied, Ok ()) ∧
  versions summary_applied ≠ versions (fresh ∅) ∧
  "v1_add_summary_table" = "v1_add_summary_table" ∧ Ok () = Ok () ∧
  versions summary_applied = versions (fresh ∅) ∪ {["v1_add_summary_table"]} ∧
  sent (calls summary_applied) = sent (calls (fresh ∅)) ++ statements summary_ddl.
Proof.
  assert (Hchanged : versions summary_applied ≠ versions (fresh ∅)).
  { apply (bool_decide_unpack _). by vm_compute. }
  split; [by vm_compute|]. split; [done|].
  apply (main_changes_ledger_for_known_version willing "v1_add_summary_table"
           "summary" (fresh ∅) summary_applied (Ok ())); [by vm_compute | done].
Defined.

End DeployFacts.

(** * The backup script: properties *)

Module BackupFacts.
Import Backup.

(** ** The order of the listing *)

Lemma leb_trans s1 s2 s3 :
  String.leb s1 s2 = true → String.leb s2 s3 = true → String.leb s1 s3 = true.
Proof.
  unfold String.leb. revert s2 s3.
  induction s1 as [|a s1 IH]; intros [|b s2] [|c s3]; cbn; try done.
  unfold Ascii.compare.
  destruct (N.compare_spec (N_of_ascii a) (N_of_ascii b)) as [Hab|Hab|Hab],
    (N.compare_spec (N_of_ascii b) (N_of_ascii c)) as [Hbc|Hbc|Hbc],
    (N.compare_spec (N_of_ascii a) (N_of_ascii c)) as [Hac|Hac|Hac];
    try done; try lia.
  apply IH.
Qed.

#[local] Instance after_trans : Transitive after.
Proof. intros a b c Hab Hbc. unfold after in *. by apply (leb_trans _ b). Qed.

#[local] Instance after_total : Total after.
Proof. intros a b. unfold after. destruct (String.leb_total a b); auto. Qed.

#[local] Instance after_antisym : AntiSymm (=) after.
Proof. intros a b Hab Hba. by apply String.leb_antisym. Qed.

Lemma listing_elem_of sys dir f :
  f ∈ listing sys dir ↔ f ∈ dir ∧ globbed sys f = true.
Proof.
  unfold listing. rewrite merge_sort_Permutation, list_elem_of_filter, elem_of_elements.
  tauto.
Qed.

Lemma listing_NoDup sys dir : NoDup (listing sys dir).
Proof.
  unfold listing. rewrite merge_sort_Permutation.
  apply NoDup_filter, NoDup_elements.
Qed.

Lemma listing_sorted sys dir : StronglySorted after (listing sys dir).
Proof. apply StronglySorted_merge_sort; apply _. Qed.

(** Once the last [c] names of the listing are gone, the listing holds its
    first [c] names. *)
Lemma listing_difference_drop sys dir c :
  listing sys (dir ∖ list_to_set (drop c (listing sys dir))) = take c (listing sys dir).
Proof.
  pose proof (listing_NoDup sys dir) as Hnodup.
  pose proof (listing_sorted sys dir) as Hsorted.
  rewrite <- (take_drop c (listing sys dir)) in Hnodup, Hsorted.
  apply NoDup_app in Hnodup as (Hnd1 & Hdisj & _).
  apply (Sorted_unique after).
  - apply Sorted_merge_sort; apply _.
  - apply StronglySorted_Sorted. by apply StronglySorted_app_1_l in Hsorted.
  - apply NoDup_Permutation; [apply listing_NoDup | done |].
    intros f. rewrite listing_elem_of, elem_of_difference, elem_of_list_to_set.
    split.
    + intros [[Hin Hnot] Hglob].
      assert (f ∈ take c (listing sys dir) ++ drop c (listing sys dir)) as Hf.
      { rewrite take_drop. by apply listing_elem_of. }
      apply elem_of_app in Hf as [Hf|Hf]; [done | by destruct Hnot].
    + intros Hf.
      assert (f ∈ listing sys dir) as Hl.
      { rewrite <- (take_drop c). apply elem_of_app. by left. }
      apply listing_elem_of in Hl as [Hin Hglob]. split; [split|]; try done.
      by apply Hdisj.
Qed.

(** ** Removal *)

Lemma cleanup_files sys olds st :
  files (cleanup sys olds st) =
    files st ∖ list_to_set (filter (λ f, remove_ok sys f = true) olds).
Proof.
  revert st. induction olds as [|old olds IH]; intros st; cbn [cleanup].
  - rewrite filter_nil. cbn. by rewrite difference_empty_L.
  - rewrite IH, filter_cons. destruct (remove_ok sys old) eqn:Hok.
    + rewrite decide_True by done. cbn. by rewrite difference_difference_l_L.
    + by rewrite decide_False by done.
Qed.

Lemma filter_all_true sys (olds : list string) :
  (∀ f, remove_ok sys f = true) →
  filter (λ f, remove_ok sys f = true) olds = olds.
Proof.
  intros Hok. induction olds as [|old olds IH]; [done|].
  rewrite filter_cons, decide_True by done. by rewrite IH.
Qed.

Lemma make_backup_returned sys db keep st st' path size :
  make_backup sys db keep st = (st', Returned path size) →
  path = fname db (now sys) ∧
  files st' =
    (files st ∪ {[path]}) ∖
    list_to_set (filter (λ f, remove_ok sys f = true)
                   (slice_from keep (listing sys (files st ∪ {[path]})))).
Proof.
  unfold make_backup. destruct (mysqldump sys); [| |done];
    intros [= <- <- _]; (split; [done|]); by rewrite cleanup_files.
Qed.

(** The backups left by a run on which every removal works. *)
Lemma make_backup_listing sys db keep st st' path size :
  (∀ f, remove_ok sys f = true) →
  make_backup sys db keep st = (st', Returned path size) →
  ∃ c, slice_from keep (listing sys (files st ∪ {[path]})) =
         drop c (listing sys (files st ∪ {[path]})) ∧
       c = Z.to_nat (if (keep <? 0)%Z
                     then (Z.of_nat (length (listing sys (files st ∪ {[path]}))) + keep)%Z
                     else keep) ∧
       listing sys (files st') = take c (listing sys (files st ∪ {[path]})).
Proof.
  intros Hok (_ & ->)%make_backup_returned. eexists. split; [done|]. split; [done|].
  rewrite filter_all_true by done. apply listing_difference_drop.
Qed.

(** X27: with [keep] at least 0 and every removal working, the backups
    left in the directory are the first [keep] names of the listing by
    descending name, the backup just made among the candidates. With
    [keep] 0 none is left: the file whose path is returned has been
    removed. *)
Theorem retention_keeps_first_names sys db keep st st' path size :
  (0 ≤ keep)%Z →
  (∀ f, remove_ok sys f = true) →
  make_backup sys db keep st = (st', Returned path size) →
  listing sys (files st') =
    take (Z.to_nat keep) (listing sys (files st ∪ {[fname db (now sys)]})).
Proof.
  intros Hkeep Hok Hrun.
  pose proof Hrun as (-> & _)%make_backup_returned.
  apply make_backup_listing in Hrun as (c & _ & -> & ->); [|done].
  by rewrite (proj2 (Z.ltb_ge keep 0)).
Qed.

(** X28: with a negative [keep], [files[keep:]] holds the last [-keep]
    names of the listing, or the whole listing when it has no more names
    than that. With every removal working the run removes those names and
    leaves the others: the listing loses [-keep] names from its end, and
    when it has [-keep] names or fewer no backup is left, the one just
    written included. *)
Theorem negative_keep_removes_last_names sys db keep st st' path size :
  (keep < 0)%Z →
  (∀ f, remove_ok sys f = true) →
  make_backup sys db keep st = (st', Returned path size) →
  listing sys (files st') =
    take (length (listing sys (files st ∪ {[fname db (now sys)]})) - Z.to_nat (- keep))
      (listing sys (files st ∪ {[fname db (now sys)]})) ∧
  length (listing sys (files st')) =
    length (listing sys (files st ∪ {[fname db (now sys)]})) - Z.to_nat (- keep) ∧
  (length (listing sys (files st ∪ {[fname db (now sys)]})) ≤ Z.to_nat (- keep) →
   listing sys (files st') = []).
Proof.
  intros Hkeep Hok Hrun.
  pose proof Hrun as (-> & _)%make_backup_returned.
  apply make_backup_listing in Hrun as (c & _ & -> & ->); [|done].
  rewrite (proj2 (Z.ltb_lt keep 0)) by done.
  set (before := listing sys (files st ∪ {[fname db (now sys)]})).
  replace (Z.to_nat (Z.of_nat (length before) + keep))
    with (length before - Z.to_nat (- keep)) by lia.
  split; [done|]. split.
  - rewrite length_take. lia.
  - intros Hfew. replace (length before - Z.to_nat (- keep)) with 0 by lia. done.
Qed.

(** X29: a file whose name [glob] does not match is never removed: after
    the call, however it ends, the directory holds it exactly when it held
    it before or when it is the file just written. *)
Theorem unmatched_files_are_untouched sys db keep st st' r f :
  globbed sys f = false →
  make_backup sys db keep st = (st', r) →
  f ∈ files st' ↔ f ∈ files st ∨ f = fname db (now sys).
Proof.
  intros Hglob Hrun.
  assert (Hfiles : ∃ olds, (∀ x, x ∈ olds → globbed sys x = true) ∧
            files st' = (files st ∪ {[fname db (now sys)]}) ∖ list_to_set olds).
  { destruct r as [path size|code].
    - apply make_backup_returned in Hrun as (-> & ->). eexists. split; [|done].
      intros x [_ Hx]%list_elem_of_filter. unfold slice_from in Hx.
      apply subseteq_drop in Hx. by apply listing_elem_of in Hx as [_ ?].
    - revert Hrun. unfold make_backup. destruct (mysqldump sys); try done.
      intros [= <- _]. exists []. split; [by intros x ?%elem_of_nil|].
      cbn. by rewrite difference_empty_L. }
  destruct Hfiles as (olds & Holds & ->).
  rewrite elem_of_difference, elem_of_union, elem_of_singleton, elem_of_list_to_set.
  split; [tauto|]. intros Hin. split; [done|]. intros Hf%Holds. congruence.
Qed.

(** X30: with every removal working, each backup that the run leaves in
    the directory has a name that sorts at or after the name of each
    backup it removes. *)
Theorem kept_backups_sort_after_removed sys db keep st st' path size kept removed :
  (∀ f, remove_ok sys f = true) →
  make_backup sys db keep st = (st', Returned path size) →
  kept ∈ files st' → globbed sys kept = true →
  removed ∈ files st ∪ {[path]} → globbed sys removed = true →
  removed ∉ files st' →
  String.leb removed kept = true.
Proof.
  intros Hok Hrun Hkept Hgk Hremoved Hgr Hgone.
  apply make_backup_listing in Hrun as (c & _ & _ & Hleft); [|done].
  pose proof (listing_sorted sys (files st ∪ {[path]})) as Hsorted.
  rewrite <- (take_drop c) in Hsorted.
  apply (StronglySorted_app_1_elem_of after _ _ kept removed Hsorted).
  - rewrite <- Hleft. by apply listing_elem_of.
  - assert (removed ∈ take c (listing sys (files st ∪ {[path]})) ++
                      drop c (listing sys (files st ∪ {[path]}))) as Hin.
    { rewrite take_drop. by apply listing_elem_of. }
    apply elem_of_app in Hin as [Hin|Hin]; [|done].
    rewrite <- Hleft in Hin. by apply listing_elem_of in Hin as [? _].
Qed.

(** ** The backup script on concrete inputs *)

Lemma retention_keeps_first_names_witness :
  (0 ≤ 2)%Z ∧
  (∀ f, remove_ok (working new_year) f = true) ∧
  make_backup (working new_year) "nyc_taxi" 2 some_dir =
    (kept_two, Returned (fname "nyc_taxi" new_year) 4096) ∧
  listing (working new_year) (files kept_two) =
    take (Z.to_nat 2)
      (listing (working new_year)
         (files some_dir ∪ {[fname "nyc_taxi" (now (working new_year))]})).
Proof.
  split; [done|]. split; [done|]. split; [by vm_compute|].
  apply (retention_keeps_first_names (working new_year) "nyc_taxi" 2 some_dir
           kept_two (fname "nyc_taxi" new_year) 4096); [done | done | by vm_compute].
Defined.

Lemma negative_keep_removes_last_names_witness :
  (-1 < 0)%Z ∧
  (∀ f, remove_ok (working new_year) f = true) ∧
  make_backup (working new_year) "nyc_taxi" (-1) some_dir =
    (dropped_last, Returned (fname "nyc_taxi" new_year) 4096) ∧
  listing (working new_year) (files dropped_last) =
    take (length (listing (working new_year)
                    (files some_dir ∪ {[fname "nyc_taxi" (now (working new_year))]}))
          - Z.to_nat (- -1))
      (listing (working new_year)
         (files some_dir ∪ {[fname "nyc_taxi" (now (working new_year))]})) ∧
  length (listing (working new_year) (files dropped_last)) =
    length (listing (working new_year)
              (files some_dir ∪ {[fname "nyc_taxi" (now (working new_year))]}))
    - Z.to_nat (- -1) ∧
  (length (listing (working new_year)
             (files some_dir ∪ {[fname "nyc_taxi" (now (working new_year))]}))
     ≤ Z.to_nat (- -1) →
   listing (working new_year) (files dropped_last) = []).
Proof.
  split; [done|]. split; [done|]. split; [by vm_compute|].
  apply (negative_keep_removes_last_names (working new_year) "nyc_taxi" (-1)
           some_dir dropped_last (fname "nyc_taxi" new_year) 4096);
    [done | done | by vm_compute].
Defined.

(** With [--keep -10] and four candidates every backup is removed, the
    one just written included; the path of a file that is gone is
    returned. *)
Example negative_keep_can_remove_every_backup :
  make_backup (working new_year) "nyc_taxi" (-10) some_dir =
    (mkState {[ "notes.txt" ]}
       [LineRunning;
        LineSuccess (fname "nyc_taxi" new_year) 4096;
        LineRemoved "nyc_taxi_backup_20240104T000000Z.sql";
        LineRemoved "nyc_taxi_backup_20240103T000000Z.sql";
        LineRemoved "nyc_taxi_backup_20240102T000000Z.sql";
        LineRemoved "nyc_taxi_backup_20240101T000000Z.sql"],
     Returned (fname "nyc_taxi" new_year) 4096).
Proof. by vm_compute. Qed.

Lemma unmatched_files_are_untouched_witness :
  globbed (working new_year) "notes.txt" = false ∧
  make_backup (working new_year) "nyc_taxi" 0 some_dir =
    ((make_backup (working new_year) "nyc_taxi" 0 some_dir).1,
     Returned (fname "nyc_taxi" new_year) 4096) ∧
  ("notes.txt" ∈ files (make_backup (working new_year) "nyc_taxi" 0 some_dir).1 ↔
   "notes.txt" ∈ files some_dir ∨
   "notes.txt" = fname "nyc_taxi" (now (working new_year))).
Proof.
  split; [by vm_compute|]. split; [by vm_compute|].
  apply (unmatched_files_are_untouched (working new_year) "nyc_taxi" 0 some_dir _
           (Returned (fname "nyc_taxi" new_year) 4096) "notes.txt");
    by vm_compute.
Defined.

Lemma kept_backups_sort_after_removed_witness :
  (∀ f, remove_ok (working new_year) f = true) ∧
  make_backup (working new_year) "nyc_taxi" 2 some_dir =
    (kept_two, Returned (fname "nyc_taxi" new_year) 4096) ∧
  "nyc_taxi_backup_20240103T000000Z.sql" ∈ files kept_two ∧
  globbed (working new_year) "nyc_taxi_backup_20240103T000000Z.sql" = true ∧
  "nyc_taxi_backup_20240102T000000Z.sql"
    ∈ files some_dir ∪ {[fname "nyc_taxi" new_year]} ∧
  globbed (working new_year) "nyc_taxi_backup_20240102T000000Z.sql" = true ∧
  ("nyc_taxi_backup_20240102T000000Z.sql" ∉ files kept_two) ∧
  String.leb "nyc_taxi_backup_20240102T000000Z.sql"
    "nyc_taxi_backup_20240103T000000Z.sql" = true.
Proof.
  assert (Hkept : "nyc_taxi_backup_20240103T000000Z.sql" ∈ files kept_two).
  { apply (bool_decide_unpack _). by vm_compute. }
  assert (Hremoved : "nyc_taxi_backup_20240102T000000Z.sql"
                       ∈ files some_dir ∪ {[fname "nyc_taxi" new_year]}).
  { apply (bool_decide_unpack _). by vm_compute. }
  assert (Hgone : "nyc_taxi_backup_20240102T000000Z.sql" ∉ files kept_two).
  { apply (bool_decide_unpack _). by vm_compute. }
  split; [done|]. split; [by vm_compute|]. split; [done|]. split; [by vm_compute|].
  split; [done|]. split; [by vm_compute|]. split; [done|].
  apply (kept_backups_sort_after_removed (working new_year) "nyc_taxi" 2 some_dir
           kept_two (fname "nyc_taxi" new_year) 4096
           "nyc_taxi_backup_20240103T000000Z.sql"
           "nyc_taxi_backup_20240102T000000Z.sql");
    [done | by vm_compute | done | by vm_compute | done | by vm_compute | done].
Defined.

End BackupFacts.
